(** * Diagram import and graph reconstruction: a shallow embedding

    This development embeds the two import routes of the flow builder,

    - [parseVisioXml] and the warning logic of [handleFile]
      (frontend/src/VisioImportModal.jsx, duplicated in frontend/src/main.jsx),
    - the normalisation performed by [handleGenerate] (frontend/src/main.jsx),

    and states the specification's properties about them.

    Modelling conventions.
    - A DOM document is represented by what the queries of the code return:
      the [Connect] elements and the [Shape] elements in document order, each
      with its attributes ([None] when [getAttribute] yields [null]) and the
      text found by [querySelector].
    - Strings are byte strings; [toLowerCase], [trim], [\s] and [slice] act
      on their ASCII range, where a byte is a UTF-16 code unit.  Properties
      that depend on the exact result of these primitives are stated for
      ASCII strings ([Js.isAscii]).
    - [PinX]/[PinY] are finite numbers, represented exactly as rationals; the
      sign of [a - b] is then the comparison of [a] with [b].  Products are
      exact where the code rounds them to doubles, so the further properties
      speak of the order and the bounds of positions, not of their digits; a
      pin text that is no number is outside the model.
    - Plain objects used as dictionaries hold their own properties in a finite
      map keyed by the property-key string.  Reading [idMap] and
      [aiIdToTempId] also finds the members inherited from [Object.prototype]
      ([Js.objGet]), and so does the test [connectorMap[shapeId]] of step 2
      ([Visio.hasEntry]); [Connect] records whose [FromSheet] names such a
      member would write through to the shared prototype and are outside the
      model ([Derived.ordinaryConnects]).
    - [Array.prototype.sort] is a stable sort. *)

From Stdlib Require Import ZArith QArith Qround Ascii Lqa.
From stdpp Require Import gmap strings list fin_maps pretty sorting.

Local Open Scope Z_scope.

(** ** JavaScript values and string primitives *)

Module Js.

(** Truthiness of a value that is either [null]/[undefined] or a string. *)
Definition truthy (o : option string) : bool :=
  match o with
  | Some s => negb (bool_decide (s = ""))
  | None => false
  end.

(** [a || b] on such values. *)
Definition or_else (a b : option string) : option string :=
  if truthy a then a else b.

(** [a || b] where both are strings. *)
Definition str_or (a b : string) : string :=
  if bool_decide (a = "") then b else a.

(** [(a || '')] for an optional string. *)
Definition or_empty (a : option string) : string :=
  match a with
  | Some s => s
  | None => ""
  end.

(** Property-key coercion of a value used as an object index. *)
Definition propKey (o : option string) : string :=
  match o with
  | Some s => s
  | None => "null"
  end.

Definition lower_ascii (c : ascii) : ascii :=
  let n := Ascii.N_of_ascii c in
  if ((65 <=? n) && (n <=? 90))%N then Ascii.ascii_of_N (n + 32) else c.

Fixpoint toLowerCase (s : string) : string :=
  match s with
  | EmptyString => EmptyString
  | String c s' => String (lower_ascii c) (toLowerCase s')
  end.

Fixpoint trimStart (s : string) : string :=
  match s with
  | EmptyString => EmptyString
  | String c s' => if Ascii.is_space c then trimStart s' else s
  end.

Definition trim (s : string) : string :=
  String.rev (trimStart (String.rev (trimStart s))).

(** [s.replace(/\s+/g, ' ')]: [inrun] tells whether the previous character
    belonged to a run of white space that was already replaced. *)
Fixpoint collapse_go (inrun : bool) (s : string) : string :=
  match s with
  | EmptyString => EmptyString
  | String c s' =>
      if Ascii.is_space c
      then (if inrun then collapse_go true s' else String " " (collapse_go true s'))
      else String c (collapse_go false s')
  end.

Definition collapseSpaces (s : string) : string := collapse_go false s.

Fixpoint startsWith (p s : string) : bool :=
  match p, s with
  | EmptyString, _ => true
  | String a p', String b s' => bool_decide (a = b) && startsWith p' s'
  | String _ _, EmptyString => false
  end.

Fixpoint includes (p s : string) : bool :=
  startsWith p s ||
  match s with
  | EmptyString => false
  | String _ s' => includes p s'
  end.

(** [s.slice(0, n)]. *)
Fixpoint slice0 (n : nat) (s : string) : string :=
  match n, s with
  | S n', String c s' => String c (slice0 n' s')
  | _, _ => EmptyString
  end.

(** Every character lies in the ASCII range. *)
Fixpoint isAscii (s : string) : bool :=
  match s with
  | EmptyString => true
  | String c s' => (Ascii.N_of_ascii c <? 128)%N && isAscii s'
  end.

(** The names of the members a plain object inherits from
    [Object.prototype]. *)
Definition protoMembers : list string :=
  ["constructor"; "__defineGetter__"; "__defineSetter__"; "hasOwnProperty";
   "__lookupGetter__"; "__lookupSetter__"; "isPrototypeOf";
   "propertyIsEnumerable"; "toString"; "valueOf"; "__proto__"; "toLocaleString"].

(** What reading a property of a plain object with string-valued own
    properties yields: an own string, or the inherited member of that name (a
    function, or [Object.prototype] itself for [__proto__]). *)
Inductive Ref :=
  | Id (s : string)
  | Inherited (member : string).

Global Instance Ref_eq_dec : EqDecision Ref.
Proof. solve_decision. Defined.

(** Truthiness of [null]/[undefined] or such a value: the inherited members
    are objects. *)
Definition truthyRef (o : option Ref) : bool :=
  match o with
  | Some (Id s) => negb (bool_decide (s = ""))
  | Some (Inherited _) => true
  | None => false
  end.

(** [obj[k]]; [None] stands for [undefined]. *)
Definition objGet (obj : gmap string string) (k : string) : option Ref :=
  match obj !! k with
  | Some v => Some (Id v)
  | None => if bool_decide (k ∈ protoMembers) then Some (Inherited k) else None
  end.

(** [obj[k] = v] for a string [v]: the inherited setter of [__proto__]
    ignores a value that is no object, any other key becomes an own
    property. *)
Definition objSet (k v : string) (obj : gmap string string) : gmap string string :=
  if bool_decide (k = "__proto__") then obj else <[k := v]> obj.

(** The string is empty or begins with a decimal digit. *)
Definition startsWithDigit (s : string) : bool :=
  match s with
  | EmptyString => true
  | String c _ => (48 <=? Ascii.N_of_ascii c)%N && (Ascii.N_of_ascii c <=? 57)%N
  end.

(** [a || null] *)
Definition refOrNull (a : option Ref) : option Ref :=
  if truthyRef a then a else None.

(** [Math.round]: the nearest integer, halves rounded up. *)
Definition round (q : Q) : Z := Qfloor (q + (1 # 2))%Q.

(** [Math.max(lo, q)] on finite numbers. *)
Definition qmax (lo q : Q) : Q :=
  match (q ?= lo)%Q with
  | Gt => q
  | _ => lo
  end.

End Js.

(** ** Stable sorting with a comparator

    [cmp a b] is the sign of the number returned by the comparison callback:
    [Lt] puts [a] first, [Gt] puts [b] first, [Eq] keeps the original order. *)

Section Sort.
Context {A : Type} (cmp : A → A → comparison).

Fixpoint insert_by (x : A) (l : list A) : list A :=
  match l with
  | [] => [x]
  | y :: l' =>
      match cmp x y with
      | Gt => y :: insert_by x l'
      | _ => x :: l
      end
  end.

Definition js_sort (l : list A) : list A := foldr insert_by [] l.

(** [a] may stand before [b] in a sorted array. *)
Definition notAfter (a b : A) : Prop := cmp a b ≠ Gt.

End Sort.

(** Template strings of the canonical identifiers. *)
Definition import_node (i : nat) : string := "import-node-" +:+ pretty i.
Definition import_edge (i : nat) : string := "import-edge-" +:+ pretty i.

Inductive NodeType := question | result | connector.

Global Instance NodeType_eq_dec : EqDecision NodeType.
Proof. solve_decision. Defined.

(** ** The Visio route: [parseVisioXml] *)

Module Visio.

Definition RESULT_MASTERS : list string :=
  ["terminator"; "start/end"; "start"; "end"; "terminal"].

Definition CONNECTOR_MASTERS : list string :=
  ["dynamic connector"; "straight connector"; "curved connector";
   "elbow connector"; "connector"].

Definition has (set : list string) (k : string) : bool :=
  bool_decide (k ∈ set).

(** A [Master] element of masters.xml with its attributes. *)
Record MasterElem := {
  m_ID : option string;
  m_NameU : option string;
  m_Name : option string;
}.

Record MasterInfo := {
  nameU : string;
  name : string;
}.

(** [mastersXml] is [None] when the package has no masters file. *)
Definition parseMasters (mastersXml : option (list MasterElem))
  : gmap (option string) MasterInfo :=
  match mastersXml with
  | None => ∅
  | Some doc =>
      foldl (λ masterMap m,
               let nameU := Js.trim (Js.toLowerCase
                   (Js.or_empty (Js.or_else (Js.or_else (m_NameU m) (m_Name m)) (Some "")))) in
               let name := Js.trim (Js.toLowerCase (Js.or_empty (Js.or_else (m_Name m) (Some "")))) in
               <[m_ID m := {| nameU := nameU; name := name |}]> masterMap)
            ∅ doc
  end.

Definition classifyShape (masterInfo : option MasterInfo) (labelText : string) : NodeType :=
  let label := Js.toLowerCase labelText in
  match masterInfo with
  | None =>
      if Js.includes "escalat" label || Js.includes "resolv" label
         || Js.startsWith "result" label
      then result else question
  | Some mi =>
      let masterKey := Js.str_or (nameU mi) (name mi) in
      if has RESULT_MASTERS masterKey then result
      else if has CONNECTOR_MASTERS masterKey then connector
      else question
  end.

(** A [Connect] element of the page. *)
Record ConnectElem := {
  FromSheet : option string;
  ToSheet : option string;
  FromPart : option string;
}.

(** A [Shape] element of the page: its attributes, the text content of its
    [Text] descendant ([None] when there is none) and the numbers read from
    [XForm > PinX] and [XForm > PinY] ([None] when absent or empty). *)
Record ShapeElem := {
  s_ID : option string;
  s_Type : option string;
  s_Master : option string;
  s_Text : option string;
  s_PinX : option Q;
  s_PinY : option Q;
}.

Record Page := {
  connects : list ConnectElem;
  shapes : list ShapeElem;
}.

(** An entry of [connectorMap]; an end is [None] while unset (or set from a
    missing [ToSheet] attribute). *)
Record Wire := {
  from : option string;
  to : option string;
}.

Definition emptyWire : Wire := {| from := None; to := None |}.

(** Step 1: one [Connect] element. *)
Definition addConnect (connectorMap : gmap string Wire) (c : ConnectElem)
  : gmap string Wire :=
  let fromSheet := Js.propKey (FromSheet c) in
  let toSheet := ToSheet c in
  let cm0 := match connectorMap !! fromSheet with
             | Some _ => connectorMap
             | None => <[fromSheet := emptyWire]> connectorMap
             end in
  let cm1 := if bool_decide (FromPart c = Some "9")
             then alter (λ w, {| from := toSheet; to := to w |}) fromSheet cm0
             else cm0 in
  if bool_decide (FromPart c = Some "12")
  then alter (λ w, {| from := from w; to := toSheet |}) fromSheet cm1
  else cm1.

Definition buildConnectorMap (cs : list ConnectElem) : gmap string Wire :=
  foldl addConnect ∅ cs.

(** [connectorMap[id]?.from] and [connectorMap[id]?.to]. *)
Definition wireFrom (connectorMap : gmap string Wire) (id : string) : option string :=
  w ← connectorMap !! id; from w.
Definition wireTo (connectorMap : gmap string Wire) (id : string) : option string :=
  w ← connectorMap !! id; to w.

(** The test [connectorMap[id]] of step 2: an own entry, or a member
    inherited from [Object.prototype]; the inherited members carry no [from]
    and no [to]. *)
Definition hasEntry (connectorMap : gmap string Wire) (id : string) : bool :=
  bool_decide (is_Some (connectorMap !! id)) || bool_decide (id ∈ Js.protoMembers).

(** An edge as pushed in step 2, before its endpoints are resolved. *)
Record RawEdge := {
  _visioSrcId : string;
  _visioTgtId : string;
  re_tempId : string;
  re_label : string;
}.

Record RawShape := {
  shapeId : option string;
  masterInfo : option MasterInfo;
  masterKey : string;
  isTerminator : bool;
  label : string;
  pinX : Q;
  pinY : Q;
}.

(** Step 2: one [Shape] element; the state is the pair of the arrays
    [edges] and [rawShapes]. *)
Definition collectShape (masterMap : gmap (option string) MasterInfo)
    (connectorMap : gmap string Wire)
    (st : list RawEdge * list RawShape) (shape : ShapeElem)
  : list RawEdge * list RawShape :=
  let '(edges, rawShapes) := st in
  let shapeId := s_ID shape in
  let masterInfo := if Js.truthy (s_Master shape) then masterMap !! s_Master shape else None in
  let label := Js.collapseSpaces (Js.trim (Js.or_empty (s_Text shape))) in
  let isEdgeType := bool_decide (s_Type shape = Some "Edge") in
  let isConnectorMaster :=
    match masterInfo with
    | Some mi => has CONNECTOR_MASTERS (Js.str_or (nameU mi) (name mi))
    | None => false
    end in
  let masterKey :=
    match masterInfo with
    | Some mi => Js.str_or (nameU mi) (name mi)
    | None => ""
    end in
  (* the array literal tested here lists the elements of RESULT_MASTERS *)
  let isTerminator := has RESULT_MASTERS masterKey in
  let key := Js.propKey shapeId in
  if isEdgeType || isConnectorMaster || hasEntry connectorMap key then
    match wireFrom connectorMap key, wireTo connectorMap key with
    | Some f, Some t =>
        if Js.truthy (Some f) && Js.truthy (Some t)
        then (edges ++ [{| _visioSrcId := f; _visioTgtId := t;
                           re_tempId := import_edge (length edges);
                           re_label := label |}], rawShapes)
        else (edges, rawShapes)
    | _, _ => (edges, rawShapes)
    end
  else if bool_decide (label = "") then (edges, rawShapes)
  else
    let pinX := default 0%Q (s_PinX shape) in
    let pinY := default 0%Q (s_PinY shape) in
    (edges, rawShapes ++ [{| shapeId := shapeId; masterInfo := masterInfo;
                             masterKey := masterKey; isTerminator := isTerminator;
                             label := label; pinX := pinX; pinY := pinY |}]).

Definition collectShapes (masterMap : gmap (option string) MasterInfo)
    (connectorMap : gmap string Wire) (ss : list ShapeElem)
  : list RawEdge * list RawShape :=
  foldl (collectShape masterMap connectorMap) ([], []) ss.

(** Step 3.  The comparison callback
    [(a, b) => b.pinY - a.pinY || a.pinX - b.pinX]. *)
Definition cmpShape (a b : RawShape) : comparison :=
  match (pinY b ?= pinY a)%Q with
  | Eq => (pinX a ?= pinX b)%Q
  | c => c
  end.

(** [allTargetIds.has(s.shapeId)]: the set holds strings only. *)
Definition isTarget (allTargetIds : list string) (s : RawShape) : bool :=
  match shapeId s with
  | Some i => bool_decide (i ∈ allTargetIds)
  | None => false
  end.

Definition allTargetIds (edges : list RawEdge) : list string :=
  filter (λ t, Js.truthy (Some t) = true) (_visioTgtId <$> edges).

Definition noIncoming (edges : list RawEdge) (rawShapes : list RawShape) : list RawShape :=
  filter (λ s, isTarget (allTargetIds edges) s = false) rawShapes.

(** The chain of [||] that picks [startShape].  [sort] works in place: the
    second component is the array [rawShapes] as it is left behind, which is
    the sorted one exactly when the third alternative was evaluated. *)
Definition selectStart (edges : list RawEdge) (rawShapes : list RawShape)
  : option RawShape * list RawShape :=
  let candidates := noIncoming edges rawShapes in
  match find (λ s, isTerminator s) candidates with
  | Some s => (Some s, rawShapes)
  | None =>
      match js_sort cmpShape candidates with
      | s :: _ => (Some s, rawShapes)
      | [] =>
          let sorted := js_sort cmpShape rawShapes in
          (head sorted, sorted)
      end
  end.

Definition startShape (edges : list RawEdge) (rawShapes : list RawShape) : option RawShape :=
  fst (selectStart edges rawShapes).

(** [startShape?.shapeId || null] *)
Definition startShapeId (start : option RawShape) : option string :=
  match start with
  | Some s => if Js.truthy (shapeId s) then shapeId s else None
  | None => None
  end.

Record Node := {
  tempId : string;
  visioId : option string;
  title : string;
  type : NodeType;
  position : Z * Z;
  body : string;
  is_start : bool;
  _masterName : string;
}.

(** Step 4: one retained shape; the state is [nodeIndex], [idMap], [nodes]. *)
Definition buildNode (startId : option string)
    (st : nat * gmap string string * list Node) (s : RawShape)
  : nat * gmap string string * list Node :=
  let '(nodeIndex, idMap, nodes) := st in
  let x := Js.round (pinX s * 96)%Q in
  let y := Js.round ((11 - pinY s) * 96)%Q in
  let isStart := bool_decide (shapeId s = startId) in
  let nodeType :=
    if isStart then question
    else if isTerminator s then result
    else classifyShape (masterInfo s) (label s) in
  if bool_decide (nodeType = connector) then st
  else
    let tempId := import_node nodeIndex in
    (S nodeIndex,
     Js.objSet (Js.propKey (shapeId s)) tempId idMap,
     nodes ++ [{| tempId := tempId; visioId := shapeId s; title := label s;
                  type := nodeType;
                  position := (Z.max 20 x, Z.max 20 y);
                  body := ""; is_start := isStart;
                  _masterName := Js.str_or (masterKey s) "unknown" |}]).

Definition buildNodes (startId : option string) (rawShapes : list RawShape)
  : nat * gmap string string * list Node :=
  foldl (buildNode startId) (0%nat, ∅, []) rawShapes.

Record Edge := {
  e_tempId : string;
  sourceId : option Js.Ref;
  targetId : option Js.Ref;
  e_label : string;
}.

(** Endpoint resolution: [idMap[...] || null], then the two raw ids are deleted. *)
Definition resolveEdge (idMap : gmap string string) (e : RawEdge) : Edge :=
  {| e_tempId := re_tempId e;
     sourceId := Js.refOrNull (Js.objGet idMap (_visioSrcId e));
     targetId := Js.refOrNull (Js.objGet idMap (_visioTgtId e));
     e_label := re_label e |}.

Definition validEdge (e : Edge) : bool :=
  Js.truthyRef (sourceId e) && Js.truthyRef (targetId e).

(** The comparison callback of the fallback,
    [(a, b) => a.position.y - b.position.y || a.position.x - b.position.x]. *)
Definition cmpNode (a b : Node) : comparison :=
  match (snd (position a) ?= snd (position b))%Z with
  | Eq => (fst (position a) ?= fst (position b))%Z
  | c => c
  end.

(** [nodes.find(n => n.tempId === id)] followed by the two assignments on the
    object found. *)
Fixpoint forceStart (id : string) (nodes : list Node) : list Node :=
  match nodes with
  | [] => []
  | n :: rest =>
      if bool_decide (tempId n = id)
      then {| tempId := tempId n; visioId := visioId n; title := title n;
              type := question; position := position n; body := body n;
              is_start := true; _masterName := _masterName n |} :: rest
      else n :: forceStart id rest
  end.

(** The guard of the fallback. *)
Definition needsFallback (nodes : list Node) : bool :=
  negb (existsb is_start nodes) && bool_decide (0 < length nodes)%nat.

Definition fallbackStart (nodes : list Node) : list Node :=
  if needsFallback nodes then
    match js_sort cmpNode nodes with
    | first :: _ => forceStart (tempId first) nodes
    | [] => nodes
    end
  else nodes.

Record Parsed := {
  nodes : list Node;
  edges : list Edge;
}.

(** The array [rawShapes] as step 4 iterates over it. *)
Definition shapeOrder (mastersXml : option (list MasterElem)) (page : Page) : list RawShape :=
  let masterMap := parseMasters mastersXml in
  let connectorMap := buildConnectorMap (connects page) in
  let '(rawEdges, rawShapes) := collectShapes masterMap connectorMap (shapes page) in
  snd (selectStart rawEdges rawShapes).

Definition parseVisioXml (page : Page) (mastersXml : option (list MasterElem)) : Parsed :=
  let masterMap := parseMasters mastersXml in
  let connectorMap := buildConnectorMap (connects page) in
  let '(rawEdges, rawShapes) := collectShapes masterMap connectorMap (shapes page) in
  let '(start, rawShapes') := selectStart rawEdges rawShapes in
  let '(_, idMap, nodes0) := buildNodes (startShapeId start) rawShapes' in
  let validEdges := filter (λ e, validEdge e = true) (resolveEdge idMap <$> rawEdges) in
  {| nodes := fallbackStart nodes0; edges := validEdges |}.

(** *** The warnings of [handleFile] *)

Inductive Warning :=
  | NoMastersFile
  | NoConnectorsFound
  | NoStartDetected
  | DetectedTypes (questionCount resultCount : nat).

Definition plural (n : nat) : string :=
  if bool_decide (n = 1%nat) then "" else "s".

Definition render (w : Warning) : string :=
  match w with
  | NoMastersFile => "No masters file found — shape types will be guessed from labels only."
  | NoConnectorsFound => "No connectors found — you can add connections manually in the next step."
  | NoStartDetected => "Could not detect a start node — please mark one manually."
  | DetectedTypes q r =>
      "ℹ Detected " +:+ pretty q +:+ " question node" +:+ plural q +:+ " and "
        +:+ pretty r +:+ " result node" +:+ plural r +:+ " from shape types."
  end.

Inductive Outcome :=
  | Failed (message : string)
  | Reviewable (g : Parsed) (warnings : list Warning).

Definition countType (t : NodeType) (ns : list Node) : nat :=
  length (filter (λ n, type n = t) ns).

(** [handleFile], from the point where the first page has been read;
    [mastersXml] is [Some doc] for the parsed, non-empty text of the masters
    file. *)
Definition handleFile (page : Page) (mastersXml : option (list MasterElem)) : Outcome :=
  let w0 := match mastersXml with None => [NoMastersFile] | Some _ => [] end in
  let g := parseVisioXml page mastersXml in
  if bool_decide (length (nodes g) = 0%nat)
  then Failed "No shapes with text found on this page. Make sure your shapes have labels."
  else
    let w1 := if bool_decide (length (edges g) = 0%nat) then w0 ++ [NoConnectorsFound] else w0 in
    let noStart := negb (existsb is_start (nodes g)) in
    let w2 := if noStart then w1 ++ [NoStartDetected] else w1 in
    let resultCount := countType result (nodes g) in
    let questionCount := countType question (nodes g) in
    let w3 := match mastersXml with
              | Some _ => w2 ++ [DetectedTypes questionCount resultCount]
              | None => w2
              end in
    Reviewable g w3.

(** *** Notions used to state the properties *)

(** The arrays [edges] and [rawShapes] once step 2 is over. *)
Definition rawEdgesOf (page : Page) (mastersXml : option (list MasterElem)) : list RawEdge :=
  fst (collectShapes (parseMasters mastersXml) (buildConnectorMap (connects page)) (shapes page)).

Definition rawShapesOf (page : Page) (mastersXml : option (list MasterElem)) : list RawShape :=
  snd (collectShapes (parseMasters mastersXml) (buildConnectorMap (connects page)) (shapes page)).

(** The shape picked by step 3 for a page. *)
Definition startShapeOf (page : Page) (mastersXml : option (list MasterElem)) : option RawShape :=
  startShape (rawEdgesOf page mastersXml) (rawShapesOf page mastersXml).

(** The array [nodes] once step 4 is over, before the fallback. *)
Definition assembledNodes (page : Page) (mastersXml : option (list MasterElem)) : list Node :=
  snd (buildNodes (startShapeId (startShapeOf page mastersXml)) (shapeOrder mastersXml page)).

Definition idMapOf (page : Page) (mastersXml : option (list MasterElem)) : gmap string string :=
  snd (fst (buildNodes (startShapeId (startShapeOf page mastersXml)) (shapeOrder mastersXml page))).

(** The node pushed for shape [s] when it is the [i]-th shape that is kept. *)
Definition nodeOf (startId : option string) (i : nat) (s : RawShape) : Node :=
  let isStart := bool_decide (shapeId s = startId) in
  {| tempId := import_node i; visioId := shapeId s; title := label s;
     type := if isStart then question
             else if isTerminator s then result
             else classifyShape (masterInfo s) (label s);
     position := (Z.max 20 (Js.round (pinX s * 96)%Q),
                  Z.max 20 (Js.round ((11 - pinY s) * 96)%Q));
     body := ""; is_start := isStart;
     _masterName := Js.str_or (masterKey s) "unknown" |}.

(** A shape that is not drawn from a connector master. *)
Definition plainShape (s : RawShape) : Prop :=
  match masterInfo s with
  | Some mi => has CONNECTOR_MASTERS (Js.str_or (nameU mi) (name mi)) = false
  | None => True
  end.

(** [a] is higher than [b] on the page or, at the same height, not to its
    right: the order [cmpShape] sorts by. *)
Definition above (a b : RawShape) : Prop :=
  (pinY b < pinY a)%Q ∨ ((pinY b == pinY a)%Q ∧ (pinX a <= pinX b)%Q).


(** The order [cmpNode] sorts by: smaller [y] first, then smaller [x]. *)
Definition nodeBefore (a b : Node) : Prop :=
  snd (position a) < snd (position b)
  ∨ (snd (position a) = snd (position b) ∧ fst (position a) ≤ fst (position b)).

Definition smallestYX (n : Node) (l : list Node) : Prop :=
  n ∈ l ∧ ∀ m, m ∈ l → nodeBefore n m.

(** The two assignments of the fallback applied to [n]. *)
Definition forced (n : Node) : Node :=
  {| tempId := tempId n; visioId := visioId n; title := title n;
     type := question; position := position n; body := body n;
     is_start := true; _masterName := _masterName n |}.

Definition countStart (ns : list Node) : nat :=
  length (filter (λ n, is_start n = true) ns).

(** A connector shape whose wiring record has both ends. *)
Definition wired (connectorMap : gmap string Wire) (shape : ShapeElem) : bool :=
  Js.truthy (wireFrom connectorMap (Js.propKey (s_ID shape)))
  && Js.truthy (wireTo connectorMap (Js.propKey (s_ID shape))).

(** The [ToSheet] of the last record of connector [k] with discriminator
    [part], as left in the table. *)
Definition lastEnd (part k : string) (cs : list ConnectElem) : option string :=
  mjoin (last (ToSheet <$>
    filter (λ c, Js.propKey (FromSheet c) = k ∧ FromPart c = Some part) cs)).

End Visio.

(** ** The text-generation route: [handleGenerate] *)

Module Generate.

(** The values an identifier or flag of the response may hold.  [JNum z] is
    the number with the integer value [z], which [String] prints in plain
    decimal ([Derived.plainNumber] bounds the integers for which this is
    exact); a value of any other kind (a fraction, a larger number, an
    object, an array) is given by what the code observes of it, its [String]
    form and its truthiness. *)
Inductive JsVal :=
  | JUndefined
  | JNull
  | JBool (b : bool)
  | JNum (z : Z)
  | JStr (s : string)
  | JOther (str : string) (truthy : bool).

(** [String(v)] *)
Definition String_ (v : JsVal) : string :=
  match v with
  | JUndefined => "undefined"
  | JNull => "null"
  | JBool true => "true"
  | JBool false => "false"
  | JNum z => pretty z
  | JStr s => s
  | JOther str _ => str
  end.

(** [!!v] *)
Definition truthyVal (v : JsVal) : bool :=
  match v with
  | JUndefined | JNull => false
  | JBool b => b
  | JNum z => negb (z =? 0)
  | JStr s => negb (bool_decide (s = ""))
  | JOther _ truthy => truthy
  end.

(** A node of the response.  A text field is [Some s] when it holds the
    string [s] and [None] when it is missing or holds another falsy value; a
    truthy [title] that is no string, on which the call of [slice] fails, is
    outside the model.  A coordinate is [Some q] when
    [typeof n.position?.x === 'number'] holds and [None] otherwise. *)
Record AiNode := {
  n_id : JsVal;
  n_title : option string;
  n_type : option string;
  n_body : option string;
  n_description : option string;
  n_x : option Q;
  n_y : option Q;
  n_is_start : JsVal;
  n_resolution : option string;
}.

Record AiEdge := {
  source : JsVal;
  target : JsVal;
  ae_label : option string;
}.

(** The response body; [data.nodes || []] and its like are applied by the
    reader, so absent arrays are empty lists. *)
Record Response := {
  r_nodes : list AiNode;
  r_edges : list AiEdge;
  r_suggestions : list string;
}.

(** One round of the loop that fills [aiIdToTempId].  The key [String(i)]
    is a decimal numeral, under which nothing is inherited, so the second
    assignment either stores the index entry or leaves the object as it
    is. *)
Definition addAiId (st : nat * gmap string string) (n : AiNode) : nat * gmap string string :=
  let '(i, m) := st in
  let m1 := match n_id n with
            | JUndefined | JNull => m
            | v => Js.objSet (String_ v) (import_node i) m
            end in
  let key := pretty i in
  let m2 := if Js.truthyRef (Js.objGet m1 key) then m1
            else Js.objSet key (import_node i) m1 in
  (S i, m2).

Definition aiIdToTempId (ns : list AiNode) : gmap string string :=
  snd (foldl addAiId (0%nat, ∅) ns).

Record Node := {
  tempId : string;
  title : string;
  type : NodeType;
  body : string;
  position : Q * Q;
  is_start : bool;
  _masterName : string;
  resolution : string;
}.

Definition defaultX (i : nat) : Q := inject_Z (Z.of_nat (i mod 4) * 300 + 60).
Definition defaultY (i : nat) : Q := inject_Z (Z.of_nat (i / 4) * 180 + 60).

Definition normalizeNode (i : nat) (n : AiNode) : Node :=
  {| tempId := import_node i;
     title := Js.slice0 80 (Js.or_empty (Js.or_else (n_title n) (Some ("Step " +:+ pretty (i + 1)%nat))));
     type := if bool_decide (n_type n = Some "result") then result else question;
     body := Js.or_empty (Js.or_else (Js.or_else (n_body n) (n_description n)) (Some ""));
     position := (Js.qmax 20 (default (defaultX i) (n_x n)),
                  Js.qmax 20 (default (defaultY i) (n_y n)));
     is_start := truthyVal (n_is_start n);
     _masterName := "AI-generated";
     resolution := Js.or_empty (Js.or_else (n_resolution n) (Some "")) |}.

Definition setStart (n : Node) : Node :=
  {| tempId := tempId n; title := title n; type := type n; body := body n;
     position := position n; is_start := true;
     _masterName := _masterName n; resolution := resolution n |}.

(** [if (nodes.length > 0 && !nodes.some(n => n.is_start)) nodes[0].is_start = true] *)
Definition ensureStart (nodes : list Node) : list Node :=
  match nodes with
  | n :: rest => if existsb is_start nodes then nodes else setStart n :: rest
  | [] => []
  end.

Record Edge := {
  e_tempId : string;
  sourceId : option Js.Ref;
  targetId : option Js.Ref;
  e_label : string;
}.

(** [aiIdToTempId[String(e.source)] ?? null] and its like. *)
Definition mapEdge (m : gmap string string) (i : nat) (e : AiEdge) : Edge :=
  {| e_tempId := import_edge i;
     sourceId := Js.objGet m (String_ (source e));
     targetId := Js.objGet m (String_ (target e));
     e_label := Js.or_empty (Js.or_else (ae_label e) (Some "")) |}.

Definition validEdge (e : Edge) : bool :=
  Js.truthyRef (sourceId e) && Js.truthyRef (targetId e).

Inductive Warning :=
  | Suggestion (s : string)
  | DroppedEdges (droppedEdgeCount : nat).

Definition render (w : Warning) : string :=
  match w with
  | Suggestion s => s
  | DroppedEdges k =>
      pretty k +:+ " connection(s) could not be mapped and were skipped. You can add them manually."
  end.

Record Generated := {
  nodes : list Node;
  edges : list Edge;
  warnings : list Warning;
}.

Inductive Outcome :=
  | Failed (message : string)
  | Reviewable (g : Generated).

(** [handleGenerate], from the point where the response body has been read;
    the error thrown for an empty node list is caught by the function itself
    and reported through [onError] with the prefix of its [catch] block. *)
Definition handleGenerate (data : Response) : Outcome :=
  let m := aiIdToTempId (r_nodes data) in
  let nodes := ensureStart (imap normalizeNode (r_nodes data)) in
  let rawEdges := r_edges data in
  let edges := filter (λ e, validEdge e = true) (imap (mapEdge m) rawEdges) in
  let droppedEdgeCount := (length rawEdges - length edges)%nat in
  let warnings := (Suggestion <$> r_suggestions data)
                    ++ (if bool_decide (0 < droppedEdgeCount)%nat
                        then [DroppedEdges droppedEdgeCount] else []) in
  if bool_decide (length nodes = 0%nat)
  then Failed ("Generation failed: "
               +:+ "AI returned no nodes. Please try rephrasing your description.")
  else Reviewable {| nodes := nodes; edges := edges; warnings := warnings |}.

(** *** Notions used to state the properties *)

Definition countStart (ns : list Node) : nat :=
  length (filter (λ n, is_start n = true) ns).

(** The nodes of the response whose [is_start] is truthy. *)
Definition flaggedStart (ns : list AiNode) : list AiNode :=
  filter (λ n, truthyVal (n_is_start n) = true) ns.

End Generate.

(** ** Concrete inputs *)

Module Scenarios.
Import Visio.

Definition connect (fromSheet toSheet fromPart : string) : ConnectElem :=
  {| FromSheet := Some fromSheet; ToSheet := Some toSheet; FromPart := Some fromPart |}.

Definition shape (id : string) (master : option string) (text : option string) (x y : Q)
  : ShapeElem :=
  {| s_ID := Some id; s_Type := Some "Shape"; s_Master := master; s_Text := text;
     s_PinX := Some x; s_PinY := Some y |}.

(** Scenario A/B: shapes A "Begin", B "Card valid?", C "Resolved" drawn from
    the masters Start/End, Decision and Terminator, and two connectors wiring
    A to B and B to C. *)
Definition scenarioPage : Page :=
  {| connects := [connect "10" "1" "9"; connect "10" "2" "12";
                  connect "11" "2" "9"; connect "11" "3" "12"];
     shapes := [shape "1" (Some "2") (Some "Begin") (2 # 1) (9 # 1);
                shape "2" (Some "3") (Some "Card valid?") (2 # 1) (7 # 1);
                shape "3" (Some "4") (Some "Resolved") (2 # 1) (5 # 1);
                shape "10" (Some "5") None (2 # 1) (8 # 1);
                shape "11" (Some "5") None (2 # 1) (6 # 1)] |}.

Definition scenarioMasters : list MasterElem :=
  [{| m_ID := Some "2"; m_NameU := Some "Start/End"; m_Name := Some "Start/End" |};
   {| m_ID := Some "3"; m_NameU := Some "Decision"; m_Name := Some "Decision" |};
   {| m_ID := Some "4"; m_NameU := Some "Terminator"; m_Name := Some "Terminator" |};
   {| m_ID := Some "5"; m_NameU := Some "Dynamic connector"; m_Name := None |}].






(** A page whose topmost shape has an empty [ID] attribute: step 3 picks it,
    [startShapeId] is [null], and no node is flagged by step 4. *)
Definition emptyIdPage : Page :=
  {| connects := [connect "10" "2" "9"; connect "10" "3" "12"];
     shapes := [shape "" None (Some "Begin") (2 # 1) (9 # 1);
                shape "2" None (Some "Card valid?") (2 # 1) (7 # 1);
                shape "3" None (Some "Refund") (2 # 1) (5 # 1);
                shape "10" None None (2 # 1) (6 # 1)] |}.

(** A page whose terminator shape has an empty [ID] attribute and lies below
    the other shape: step 3 picks the terminator, [startShapeId] is [null]. *)
Definition emptyIdTerminatorPage : Page :=
  {| connects := [];
     shapes := [shape "" (Some "4") (Some "Begin") (2 # 1) (5 # 1);
                shape "2" (Some "3") (Some "Card valid?") (2 # 1) (9 # 1)] |}.



(** Connector 10 leads from a sheet named [constructor], which no shape
    carries, to shape 1. *)
Definition inheritedEndPage : Page :=
  {| connects := [connect "10" "constructor" "9"; connect "10" "1" "12"];
     shapes := [shape "1" None (Some "Begin") (2 # 1) (9 # 1);
                shape "10" None None (2 # 1) (8 # 1)] |}.

(** A page whose only shape is labelled and has the identifier
    [constructor]. *)
Definition inheritedIdPage : Page :=
  {| connects := [];
     shapes := [shape "constructor" None (Some "Begin") (2 # 1) (9 # 1)] |}.

(** A page whose only shape has no text. *)
Definition unlabelledPage : Page :=
  {| connects := []; shapes := [shape "1" None None (1 # 1) (1 # 1)] |}.

(** Two shapes carrying the same [ID]. *)
Definition duplicateIdPage : Page :=
  {| connects := [];
     shapes := [shape "1" None (Some "Begin") (2 # 1) (9 # 1);
                shape "1" None (Some "Again") (2 # 1) (7 # 1)] |}.

(** Every shape has an incoming wire: 1 -> 2 -> 1. *)
Definition cyclicPage : Page :=
  {| connects := [connect "10" "1" "9"; connect "10" "2" "12";
                  connect "11" "2" "9"; connect "11" "1" "12"];
     shapes := [shape "1" None (Some "Lower") (2 # 1) (3 # 1);
                shape "2" None (Some "Upper") (2 # 1) (9 # 1);
                shape "10" None None (2 # 1) (8 # 1);
                shape "11" None None (2 # 1) (6 # 1)] |}.

Definition aiNode (id : Generate.JsVal) (x y : option Q) (isStart : Generate.JsVal)
  : Generate.AiNode :=
  {| Generate.n_id := id; Generate.n_title := None; Generate.n_type := None;
     Generate.n_body := None; Generate.n_description := None;
     Generate.n_x := x; Generate.n_y := y;
     Generate.n_is_start := isStart; Generate.n_resolution := None |}.

(** A response in which two nodes are flagged as start. *)
Definition twoStarts : Generate.Response :=
  {| Generate.r_nodes :=
       [aiNode (Generate.JNum 1) None None (Generate.JBool true);
        aiNode (Generate.JNum 2) None None (Generate.JBool true)];
     Generate.r_edges :=
       [{| Generate.source := Generate.JNum 1; Generate.target := Generate.JNum 2;
           Generate.ae_label := None |}];
     Generate.r_suggestions := [] |}.

(** A response with one node and one edge whose source is the string
    [constructor], the identifier of no node. *)
Definition inheritedEnd : Generate.Response :=
  {| Generate.r_nodes := [aiNode (Generate.JStr "a") None None Generate.JUndefined];
     Generate.r_edges :=
       [{| Generate.source := Generate.JStr "constructor";
           Generate.target := Generate.JStr "a"; Generate.ae_label := None |}];
     Generate.r_suggestions := [] |}.

(** A response whose only node sits at (5, 7). *)
Definition lowCoordinates : Generate.Response :=
  {| Generate.r_nodes :=
       [aiNode (Generate.JStr "a") (Some (5 # 1)) (Some (7 # 1)) Generate.JUndefined];
     Generate.r_edges := [];
     Generate.r_suggestions := [] |}.

(** Scenario D. *)
Definition scenarioD : Generate.Response :=
  {| Generate.r_nodes :=
       [aiNode (Generate.JStr "node-0") None None Generate.JUndefined;
        aiNode (Generate.JStr "node-1") None None Generate.JUndefined;
        aiNode (Generate.JStr "node-2") (Some (-40 # 1)) None Generate.JUndefined];
     Generate.r_edges :=
       [{| Generate.source := Generate.JNum 2; Generate.target := Generate.JStr "node-2";
           Generate.ae_label := None |};
        {| Generate.source := Generate.JStr "ghost"; Generate.target := Generate.JNum 0;
           Generate.ae_label := None |}];
     Generate.r_suggestions := [] |}.

End Scenarios.

(** ** The review step: the state helpers of [VisioImportModal]

    After either import the modal keeps the arrays [nodes] and [edges] in its
    state; the helpers below are the functional updates passed to [setNodes]
    and [setEdges], and [saveFlow] up to the request it sends. *)

Module Review.

(** A node object of the state: the keys of the objects built by either
    route ([visioId] and [resolution] are [None] where the route does not set
    them). *)
Record Node := {
  tempId : string;
  title : string;
  type : NodeType;
  body : string;
  position : Q * Q;
  is_start : bool;
  _masterName : string;
  visioId : option (option string);
  resolution : option string;
}.

(** An edge object of the state; its ends are the values the import left
    there or the identifiers chosen in the editor. *)
Record Edge := {
  e_tempId : string;
  sourceId : option Js.Ref;
  targetId : option Js.Ref;
  label : string;
}.

Definition ofVisio (n : Visio.Node) : Node :=
  {| tempId := Visio.tempId n; title := Visio.title n; type := Visio.type n;
     body := Visio.body n;
     position := (inject_Z (fst (Visio.position n)), inject_Z (snd (Visio.position n)));
     is_start := Visio.is_start n; _masterName := Visio._masterName n;
     visioId := Some (Visio.visioId n); resolution := None |}.

Definition ofVisioEdge (e : Visio.Edge) : Edge :=
  {| e_tempId := Visio.e_tempId e; sourceId := Visio.sourceId e;
     targetId := Visio.targetId e; label := Visio.e_label e |}.

Definition ofGenerated (n : Generate.Node) : Node :=
  {| tempId := Generate.tempId n; title := Generate.title n; type := Generate.type n;
     body := Generate.body n; position := Generate.position n;
     is_start := Generate.is_start n; _masterName := Generate._masterName n;
     visioId := None; resolution := Some (Generate.resolution n) |}.

Definition ofGeneratedEdge (e : Generate.Edge) : Edge :=
  {| e_tempId := Generate.e_tempId e; sourceId := Generate.sourceId e;
     targetId := Generate.targetId e; label := Generate.e_label e |}.

(** The [changes] objects the node editor passes to [onChange]: one of the
    keys [type], [is_start], [title], [body], [resolution]. *)
Record Changes := {
  c_type : option NodeType;
  c_is_start : option bool;
  c_title : option string;
  c_body : option string;
  c_resolution : option string;
}.

(** [{ ...n, ...changes }] *)
Definition merge (n : Node) (changes : Changes) : Node :=
  {| tempId := tempId n;
     title := default (title n) (c_title changes);
     type := default (type n) (c_type changes);
     body := default (body n) (c_body changes);
     position := position n;
     is_start := default (is_start n) (c_is_start changes);
     _masterName := _masterName n;
     visioId := visioId n;
     resolution := match c_resolution changes with
                   | Some r => Some r
                   | None => resolution n
                   end |}.

(** [{ ...n, is_start: false }] *)
Definition unmark (n : Node) : Node :=
  {| tempId := tempId n; title := title n; type := type n; body := body n;
     position := position n; is_start := false; _masterName := _masterName n;
     visioId := visioId n; resolution := resolution n |}.

(** The two queued updates of [updateNode]. *)
Definition updateNode (id : string) (changes : Changes) (nodes : list Node) : list Node :=
  let nodes1 := (λ n, if bool_decide (tempId n ≠ id) then n else merge n changes) <$> nodes in
  if bool_decide (c_is_start changes = Some true)
  then (λ n, if bool_decide (tempId n = id) then merge n changes else unmark n) <$> nodes1
  else nodes1.

(** [updateEdge]; the editor only passes [{ label }]. *)
Definition updateEdge (id : string) (newLabel : string) (edges : list Edge) : list Edge :=
  (λ e, if bool_decide (e_tempId e = id)
        then {| e_tempId := e_tempId e; sourceId := sourceId e;
                targetId := targetId e; label := newLabel |}
        else e) <$> edges.

Definition deleteEdge (id : string) (edges : list Edge) : list Edge :=
  filter (λ e, e_tempId e ≠ id) edges.

(** [addEdge]; [now] is the value of [Date.now()]. *)
Definition addEdge (now : N) (src tgt lbl : string) (edges : list Edge) : list Edge :=
  edges ++ [{| e_tempId := "import-edge-" +:+ pretty now;
               sourceId := Some (Js.Id src); targetId := Some (Js.Id tgt);
               label := lbl |}].

(** [deleteNode]: the new [nodes], [edges] and [selectedId]. *)
Definition deleteNode (id : string) (nodes : list Node) (edges : list Edge)
  : list Node * list Edge * option string :=
  (filter (λ n, tempId n ≠ id) nodes,
   filter (λ e, sourceId e ≠ Some (Js.Id id) ∧ targetId e ≠ Some (Js.Id id)) edges,
   None).

(** [AddEdgeRow]: the nodes offered as targets, and the [add] handler with the
    [targetId] held by the select. *)
Definition available (node : Node) (allNodes : list Node) : list Node :=
  filter (λ n, tempId n ≠ tempId node) allNodes.

Definition add (now : N) (node : Node) (targetId lbl : string) (edges : list Edge)
  : list Edge :=
  if bool_decide (targetId = "") then edges
  else addEdge now (tempId node) targetId lbl edges.

(** The body of the import request of [saveFlow] (main.jsx). *)
Record NodePayload := {
  p_tempId : string;
  p_type : NodeType;
  p_title : string;
  p_body : string;
  p_position : Q * Q;
  p_is_start : bool;
  (** [Some r] for [{ resolution: r, escalate_to: null }], [None] for [{}] *)
  p_metadata : option string;
}.

Record EdgePayload := {
  p_sourceId : option Js.Ref;
  p_targetId : option Js.Ref;
  p_label : string;
}.

Record ImportRequest := {
  rq_name : string;
  rq_description : string;
  rq_nodes : list NodePayload;
  rq_edges : list EdgePayload;
}.

Definition nodePayload (n : Node) : NodePayload :=
  {| p_tempId := tempId n; p_type := type n;
     p_title := Js.str_or (title n) "Untitled step";
     p_body := body n;
     p_position := position n; p_is_start := is_start n;
     p_metadata := if bool_decide (type n = result)
                   then Some (Js.or_empty (Js.or_else (resolution n) (Some "")))
                   else None |}.

Definition edgePayload (e : Edge) : EdgePayload :=
  {| p_sourceId := sourceId e; p_targetId := targetId e; p_label := label e |}.

Definition startNodes (nodes : list Node) : list Node :=
  filter (λ n, is_start n = true) nodes.

(** [saveFlow] up to its requests: the message given to [setError], or the
    flow name and description together with the body posted to
    [/versions/:id/import]. *)
Definition saveFlow (flowName flowDesc : string) (nodes : list Node) (edges : list Edge)
  : string + ImportRequest :=
  if bool_decide (Js.trim flowName = "") then inl "Please enter a flow name."
  else if bool_decide (length (startNodes nodes) = 0%nat)
  then inl "Please mark one node as the START node."
  else if bool_decide (1 < length (startNodes nodes))%nat
  then inl "Only one node can be the START node."
  else inr {| rq_name := Js.trim flowName; rq_description := Js.trim flowDesc;
              rq_nodes := nodePayload <$> nodes;
              rq_edges := edgePayload <$> edges |}.

(** Every end of every edge names a node of the list. *)
Definition closed (nodes : list Node) (edges : list Edge) : Prop :=
  ∀ e, e ∈ edges →
    ∃ n1 n2, n1 ∈ nodes ∧ n2 ∈ nodes
             ∧ sourceId e = Some (Js.Id (tempId n1))
             ∧ targetId e = Some (Js.Id (tempId n2)).

End Review.

(** ** The text tab: the guard and the flow name of [handleGenerate] *)

Module TextToFlow.

(** The characters of the class [[.!?\n]]. *)
Definition isTerminator (c : ascii) : bool :=
  bool_decide (c = "."%char) || bool_decide (c = "!"%char)
  || bool_decide (c = "?"%char) || bool_decide (c = "010"%char).

(** [s.split(/[.!?\n]/)[0]] *)
Fixpoint firstPiece (s : string) : string :=
  match s with
  | EmptyString => EmptyString
  | String c s' => if isTerminator c then EmptyString else String c (firstPiece s')
  end.

(** [description.trim().length < 10]: the request is not sent. *)
Definition tooShort (description : string) : bool :=
  bool_decide (String.length (Js.trim description) < 10)%nat.

(** [description.trim().split(/[.!?\n]/)[0].slice(0, 60)] *)
Definition flowName (description : string) : string :=
  Js.slice0 60 (firstPiece (Js.trim description)).

(** [handleImageParsed]: the name put into the state for a generated flow,
    [suggestedName || ''] (no file name is passed by the text tab). *)
Definition rawName (suggestedName : string) : string :=
  Js.str_or suggestedName "".

(** The characters of a string. *)
Fixpoint chars (s : string) : list ascii :=
  match s with
  | EmptyString => []
  | String c s' => c :: chars s'
  end.

End TextToFlow.

(** ** Further notions used to state properties *)

Module Derived.

(** The entry [parseMasters] stores for one [Master] element. *)
Definition infoOf (m : Visio.MasterElem) : Visio.MasterInfo :=
  {| Visio.nameU := Js.trim (Js.toLowerCase
       (Js.or_empty (Js.or_else (Js.or_else (Visio.m_NameU m) (Visio.m_Name m)) (Some ""))));
     Visio.name := Js.trim (Js.toLowerCase
       (Js.or_empty (Js.or_else (Visio.m_Name m) (Some "")))) |}.

(** The label step 2 computes for a [Shape] element. *)
Definition labelOf (sh : Visio.ShapeElem) : string :=
  Js.collapseSpaces (Js.trim (Js.or_empty (Visio.s_Text sh))).

(** The [y] coordinate step 4 gives a retained shape. *)
Definition yOf (s : Visio.RawShape) : Z :=
  Z.max 20 (Js.round ((11 - Visio.pinY s) * 96)%Q).

(** The identifier of a retained shape as a key of [idMap]. *)
Definition keyOf (s : Visio.RawShape) : string := Js.propKey (Visio.shapeId s).

(** Node [n] of the response declares identifier key [k]: its identifier
    is set and spells [k], and the assignment to that key of [aiIdToTempId]
    takes effect. *)
Definition declares (k : string) (n : Generate.AiNode) : bool :=
  match Generate.n_id n with
  | Generate.JUndefined | Generate.JNull => false
  | v => bool_decide (Generate.String_ v = k) && negb (bool_decide (k = "__proto__"))
  end.

(** The index of the last node declaring [k], counting from [i]. *)
Fixpoint lastDeclaredFrom (i : nat) (k : string) (ns : list Generate.AiNode) : option nat :=
  match ns with
  | [] => None
  | n :: rest =>
      match lastDeclaredFrom (S i) k rest with
      | Some j => Some j
      | None => if declares k n then Some i else None
      end
  end.

Definition lastDeclared (k : string) (ns : list Generate.AiNode) : option nat :=
  lastDeclaredFrom 0 k ns.

(** The index below [n] whose decimal form is [k]. *)
Definition indexKey (k : string) (n : nat) : option nat :=
  head (filter (λ i, pretty i = k) (seq 0 n)).

(** An edge of the response with an end under which [aiIdToTempId] holds
    nothing, neither of its own nor inherited. *)
Definition unresolved (m : gmap string string) (e : Generate.AiEdge) : Prop :=
  Js.objGet m (Generate.String_ (Generate.source e)) = None
  ∨ Js.objGet m (Generate.String_ (Generate.target e)) = None.

Global Instance unresolved_dec m e : Decision (unresolved m e).
Proof. unfold unresolved. apply _. Defined.

(** The ends of the wire step 2 pushes for a [Shape] element, if any. *)
Definition wireEnds (connectorMap : gmap string Visio.Wire) (sh : Visio.ShapeElem)
  : option (string * string) :=
  if Visio.wired connectorMap sh
  then f ← Visio.wireFrom connectorMap (Js.propKey (Visio.s_ID sh));
       t ← Visio.wireTo connectorMap (Js.propKey (Visio.s_ID sh));
       Some (f, t)
  else None.

(** A wire end that [idMap] answers: the identifier of a retained shape, or
    the name of a member inherited from [Object.prototype]. *)
Definition resolves (page : Visio.Page) (mastersXml : option (list Visio.MasterElem))
    (k : string) : Prop :=
  (∃ s, s ∈ Visio.rawShapesOf page mastersXml ∧ keyOf s = k) ∨ k ∈ Js.protoMembers.

(** What [idMap] answers for a wire end [k] that resolves. *)
Definition answers (page : Visio.Page) (mastersXml : option (list Visio.MasterElem))
    (k : string) (r : option Js.Ref) : Prop :=
  (∃ n, n ∈ Visio.nodes (Visio.parseVisioXml page mastersXml)
        ∧ r = Some (Js.Id (Visio.tempId n)) ∧ Js.propKey (Visio.visioId n) = k)
  ∨ (k ∈ Js.protoMembers ∧ r = Some (Js.Inherited k)).

(** No [Connect] record has a [FromSheet] naming a member inherited from
    [Object.prototype]: the records only touch entries of [connectorMap]. *)
Definition ordinaryConnects (page : Visio.Page) : bool :=
  forallb (λ c, negb (bool_decide (Js.propKey (Visio.FromSheet c) ∈ Js.protoMembers)))
          (Visio.connects page).

(** No [Connect] record has a [ToSheet] naming such a member. *)
Definition ordinaryEnds (page : Visio.Page) : bool :=
  forallb (λ c, match Visio.ToSheet c with
                | Some t => negb (bool_decide (t ∈ Js.protoMembers))
                | None => true
                end)
          (Visio.connects page).

(** The texts of the shapes and the names of the masters are ASCII. *)
Definition asciiPage (page : Visio.Page) (mastersXml : option (list Visio.MasterElem))
  : bool :=
  forallb (λ sh, Js.isAscii (Js.or_empty (Visio.s_Text sh))) (Visio.shapes page)
  && forallb (λ m, Js.isAscii (Js.or_empty (Visio.m_NameU m))
                   && Js.isAscii (Js.or_empty (Visio.m_Name m)))
             (default [] mastersXml).

(** A value whose [String] form is the one [Generate.String_] gives: any
    value but an integer beyond 2^53 in magnitude (up to there every integer
    is a number, and [String] prints it in plain decimal). *)
Definition plainNumber (v : Generate.JsVal) : bool :=
  match v with
  | Generate.JNum z => Z.abs z <=? 2 ^ 53
  | _ => true
  end.

(** The identifiers of the nodes and the ends of the edges of a response are
    such values. *)
Definition plainKeys (data : Generate.Response) : bool :=
  forallb (λ n, plainNumber (Generate.n_id n)) (Generate.r_nodes data)
  && forallb (λ e, plainNumber (Generate.source e) && plainNumber (Generate.target e))
             (Generate.r_edges data).

(** No edge of the response has an end naming a member inherited from
    [Object.prototype]. *)
Definition ordinaryEdgeEnds (data : Generate.Response) : bool :=
  forallb (λ e, negb (bool_decide (Generate.String_ (Generate.source e) ∈ Js.protoMembers))
                && negb (bool_decide (Generate.String_ (Generate.target e)
                                      ∈ Js.protoMembers)))
          (Generate.r_edges data).

(** The object [{ is_start: b }] passed by the start check box. *)
Definition startChange (b : bool) : Review.Changes :=
  {| Review.c_type := None; Review.c_is_start := Some b; Review.c_title := None;
     Review.c_body := None; Review.c_resolution := None |}.

(** The review state after importing a page, and after a generated response. *)
Definition visioState (page : Visio.Page) (mastersXml : option (list Visio.MasterElem))
  : list Review.Node * list Review.Edge :=
  (Review.ofVisio <$> Visio.nodes (Visio.parseVisioXml page mastersXml),
   Review.ofVisioEdge <$> Visio.edges (Visio.parseVisioXml page mastersXml)).

Definition generatedState (g : Generate.Generated) : list Review.Node * list Review.Edge :=
  (Review.ofGenerated <$> Generate.nodes g, Review.ofGeneratedEdge <$> Generate.edges g).

End Derived.

(** * Properties *)

(** ** The string primitives on sample inputs *)

Example trim_sample : Js.trim "  Card  valid? " = "Card  valid?".
Proof. reflexivity. Qed.

Example collapseSpaces_sample : Js.collapseSpaces "Card   valid?" = "Card valid?".
Proof. reflexivity. Qed.

Example toLowerCase_sample : Js.toLowerCase "Start/End" = "start/end".
Proof. reflexivity. Qed.

Example includes_sample :
  Js.includes "resolv" "resolved" = true ∧ Js.includes "escalat" "begin" = false.
Proof. split; reflexivity. Qed.

Example round_sample : Js.round (5 # 2) = 3 ∧ Js.round (-5 # 2) = -2.
Proof. split; reflexivity. Qed.

Example import_node_sample : import_node 12 = "import-node-12".
Proof. vm_compute. reflexivity. Qed.

Example js_sort_stable :
  js_sort (λ a b : nat * string, Nat.compare (fst a) (fst b))
          [(2, "a"); (1, "b"); (2, "c"); (1, "d")]%nat
  = [(1, "b"); (1, "d"); (2, "a"); (2, "c")]%nat.
Proof. reflexivity. Qed.

(** ** Facts about the stable sort *)

Section SortFacts.
Context {A : Type} (cmp : A → A → comparison).

Lemma insert_by_Permutation x l : insert_by cmp x l ≡ₚ x :: l.
Proof.
  induction l as [|y l IH]; simpl; [done|].
  destruct (cmp x y); try done.
  rewrite IH. apply Permutation_swap.
Qed.

Lemma js_sort_Permutation l : js_sort cmp l ≡ₚ l.
Proof.
  induction l as [|x l IH]; simpl; [done|].
  rewrite insert_by_Permutation. by f_equiv.
Qed.

Lemma js_sort_length l : length (js_sort cmp l) = length l.
Proof. by rewrite js_sort_Permutation. Qed.

Lemma js_sort_nil_inv l : js_sort cmp l = [] → l = [].
Proof.
  intros H. apply Permutation_nil_r. by rewrite <- H, js_sort_Permutation.
Qed.

Hypothesis cmp_trans : ∀ a b c, notAfter cmp a b → notAfter cmp b c → notAfter cmp a c.
Hypothesis cmp_total : ∀ a b, cmp a b = Gt → notAfter cmp b a.

Lemma insert_by_sorted x l :
  StronglySorted (notAfter cmp) l → StronglySorted (notAfter cmp) (insert_by cmp x l).
Proof.
  induction 1 as [|y l Hs IH Hall]; simpl.
  - repeat constructor.
  - destruct (cmp x y) eqn:E.
    + constructor; [by constructor|].
      constructor; [unfold notAfter; congruence|].
      eapply Forall_impl; [exact Hall|]. intros z Hz.
      apply (cmp_trans x y z); [unfold notAfter; congruence|done].
    + constructor; [by constructor|].
      constructor; [unfold notAfter; congruence|].
      eapply Forall_impl; [exact Hall|]. intros z Hz.
      apply (cmp_trans x y z); [unfold notAfter; congruence|done].
    + constructor; [done|].
      rewrite insert_by_Permutation. constructor; [by apply cmp_total|done].
Qed.

Lemma js_sort_sorted l : StronglySorted (notAfter cmp) (js_sort cmp l).
Proof.
  induction l as [|x l IH]; simpl; [constructor|by apply insert_by_sorted].
Qed.

Lemma js_sort_head_least l s rest :
  js_sort cmp l = s :: rest → s ∈ l ∧ ∀ t, t ∈ l → notAfter cmp s t.
Proof.
  intros E. pose proof (js_sort_sorted l) as Hs.
  pose proof (js_sort_Permutation l) as Hp.
  rewrite E in Hs, Hp. split.
  - rewrite <- Hp. by left.
  - intros t Ht. rewrite <- Hp in Ht.
    apply StronglySorted_inv in Hs as [_ Hall].
    apply elem_of_cons in Ht as [->|Ht].
    + intros G. by apply (cmp_total s s G).
    + rewrite Forall_forall in Hall. by apply Hall.
Qed.

End SortFacts.

(** ** Facts about plain objects *)

Module JsFacts.

Lemma objGet_own (obj : gmap string string) k v :
  obj !! k = Some v → Js.objGet obj k = Some (Js.Id v).
Proof. unfold Js.objGet. by intros ->. Qed.

Lemma objGet_ordinary (obj : gmap string string) k :
  k ∉ Js.protoMembers → Js.objGet obj k = Js.Id <$> obj !! k.
Proof.
  intros Hk. unfold Js.objGet. destruct (obj !! k); [done|].
  by rewrite bool_decide_eq_false_2.
Qed.

Lemma objGet_cases (obj : gmap string string) k :
  (∃ v, obj !! k = Some v ∧ Js.objGet obj k = Some (Js.Id v))
  ∨ (obj !! k = None ∧ k ∈ Js.protoMembers ∧ Js.objGet obj k = Some (Js.Inherited k))
  ∨ (obj !! k = None ∧ (k ∉ Js.protoMembers) ∧ Js.objGet obj k = None).
Proof.
  unfold Js.objGet. destruct (obj !! k) as [v|]; [left; by exists v|right].
  case_bool_decide; [by left|by right].
Qed.

Lemma objSet_lookup k v (obj : gmap string string) k' :
  Js.objSet k v obj !! k'
  = if decide (k = k' ∧ k ≠ "__proto__") then Some v else obj !! k'.
Proof.
  unfold Js.objSet. case_bool_decide as Hp.
  - rewrite decide_False; [done|]. by intros [_ ?].
  - destruct (decide (k = k')) as [->|Hne].
    + rewrite decide_True by done. apply lookup_insert_eq.
    + rewrite decide_False by (by intros [? _]). by apply lookup_insert_ne.
Qed.

Lemma objSet_lookup_Some k v (obj : gmap string string) k' x :
  Js.objSet k v obj !! k' = Some x → (k = k' ∧ x = v) ∨ obj !! k' = Some x.
Proof.
  rewrite objSet_lookup. case_decide as H; [|by right].
  intros [= <-]. left. by destruct H.
Qed.

Lemma truthyRef_Id s : Js.truthyRef (Some (Js.Id s)) = true ↔ s ≠ "".
Proof. simpl. by rewrite negb_true_iff, bool_decide_eq_false. Qed.

Lemma refOrNull_truthy (o : option Js.Ref) :
  Js.truthyRef (Js.refOrNull o) = Js.truthyRef o.
Proof. unfold Js.refOrNull. by destruct (Js.truthyRef o) eqn:E. Qed.

Lemma refOrNull_of_truthy (o : option Js.Ref) :
  Js.truthyRef o = true → Js.refOrNull o = o.
Proof. unfold Js.refOrNull. by intros ->. Qed.

(** The decimal form of an index starts with a digit, so it names no
    inherited member. *)
Lemma pretty_N_go_digit x s :
  Js.startsWithDigit s = true → Js.startsWithDigit (pretty_N_go x s) = true.
Proof.
  revert s. induction (N.lt_wf_0 x) as [x _ IH]; intros s Hs.
  assert (x = 0 ∨ 0 < x)%N as [->|Hx] by lia.
  - by rewrite pretty_N_go_0.
  - rewrite pretty_N_go_step by done. apply IH.
    { by apply N.div_lt. }
    unfold pretty_N_char. by repeat case_match.
Qed.

Lemma pretty_nat_digit (i : nat) : Js.startsWithDigit (pretty i) = true.
Proof.
  unfold pretty, pretty_nat, pretty, pretty_N.
  case_decide; [done|]. by apply pretty_N_go_digit.
Qed.

Lemma pretty_nat_ordinary (i : nat) : pretty i ∉ Js.protoMembers.
Proof.
  intros Hin. pose proof (pretty_nat_digit i) as Hd.
  assert (Forall (λ p, Js.startsWithDigit p = false) Js.protoMembers) as Hall.
  { apply (bool_decide_unpack _). vm_compute. exact I. }
  rewrite Forall_forall in Hall. specialize (Hall _ Hin). congruence.
Qed.

Lemma pretty_nat_not_proto (i : nat) : pretty i ≠ "__proto__".
Proof.
  intros E. apply (pretty_nat_ordinary i). rewrite E.
  apply (bool_decide_unpack _). vm_compute. exact I.
Qed.

Lemma import_node_nonempty i : import_node i ≠ "".
Proof. unfold import_node. by destruct (pretty i). Qed.

Lemma import_node_truthy i : Js.truthyRef (Some (Js.Id (import_node i))) = true.
Proof. apply truthyRef_Id, import_node_nonempty. Qed.

End JsFacts.

(** ** The Visio route *)

Module VisioProofs.
Import Visio.

Lemma cmpShape_notAfter a b : notAfter cmpShape a b ↔ above a b.
Proof.
  unfold notAfter, above, cmpShape.
  destruct (pinY b ?= pinY a)%Q eqn:Ey.
  - apply Qeq_alt in Ey. rewrite <- Qle_alt. split.
    + intros H. right. by split.
    + intros [H|[_ H]]; [|done]. rewrite Ey in H. by apply Qlt_irrefl in H.
  - apply Qlt_alt in Ey. split; [by left|done].
  - apply Qgt_alt in Ey. split; [done|].
    intros [H|[H _]]; exfalso; lra.
Qed.

Lemma above_trans a b c : above a b → above b c → above a c.
Proof. unfold above. intros [?|[??]] [?|[??]]; [left|left|left|right; split]; lra. Qed.

Lemma above_total a b : above a b ∨ above b a.
Proof.
  unfold above.
  destruct (Qlt_le_dec (pinY b) (pinY a)); [by left; left|].
  destruct (Qlt_le_dec (pinY a) (pinY b)); [by right; left|].
  destruct (Qlt_le_dec (pinX b) (pinX a)).
  - right. right. split; lra.
  - left. right. split; lra.
Qed.

Lemma cmpShape_trans a b c :
  notAfter cmpShape a b → notAfter cmpShape b c → notAfter cmpShape a c.
Proof. rewrite !cmpShape_notAfter. apply above_trans. Qed.

Lemma cmpShape_total a b : cmpShape a b = Gt → notAfter cmpShape b a.
Proof.
  intros G. rewrite cmpShape_notAfter.
  destruct (above_total a b) as [H|H]; [|done].
  apply cmpShape_notAfter in H. by destruct H.
Qed.

Lemma cmpNode_notAfter a b : notAfter cmpNode a b ↔ nodeBefore a b.
Proof.
  unfold notAfter, nodeBefore, cmpNode.
  destruct (snd (position a) ?= snd (position b)) eqn:Ey.
  - apply Z.compare_eq_iff in Ey. rewrite <- Z.compare_le_iff. split.
    + intros H. right. by split.
    + intros [H|[_ H]]; [lia|done].
  - apply Z.compare_lt_iff in Ey. split; [by left|done].
  - apply Z.compare_gt_iff in Ey. split; [done|lia].
Qed.

Lemma cmpNode_trans a b c :
  notAfter cmpNode a b → notAfter cmpNode b c → notAfter cmpNode a c.
Proof. rewrite !cmpNode_notAfter. unfold nodeBefore. lia. Qed.

Lemma cmpNode_total a b : cmpNode a b = Gt → notAfter cmpNode b a.
Proof.
  intros G. rewrite cmpNode_notAfter.
  assert (¬ nodeBefore a b) as N.
  { intros H. apply cmpNode_notAfter in H. by destruct H. }
  unfold nodeBefore in *. lia.
Qed.

(** *** Step 2: what one [Shape] element contributes *)

Lemma truthy_Some_ne s : Js.truthy (Some s) = true ↔ s ≠ "".
Proof.
  unfold Js.truthy. rewrite negb_true_iff, bool_decide_eq_false. done.
Qed.

Lemma collectShape_cases mm cm es rs sh :
  let k := Js.propKey (s_ID sh) in
  let r := collectShape mm cm (es, rs) sh in
  (∃ e, r = (es ++ [e], rs)
        ∧ wireFrom cm k = Some (_visioSrcId e) ∧ wireTo cm k = Some (_visioTgtId e)
        ∧ _visioSrcId e ≠ "" ∧ _visioTgtId e ≠ "" ∧ wired cm sh = true)
  ∨ (r = (es, rs))
  ∨ (∃ s, r = (es, rs ++ [s]) ∧ shapeId s = s_ID sh ∧ plainShape s
          ∧ label s ≠ "" ∧ hasEntry cm k = false
          ∧ masterInfo s = (if Js.truthy (s_Master sh) then mm !! s_Master sh else None)
          ∧ isTerminator s
            = has RESULT_MASTERS match masterInfo s with
                                 | Some mi => Js.str_or (nameU mi) (name mi)
                                 | None => ""
                                 end).
Proof.
  intros k r. subst r. unfold collectShape. fold k.
  set (mi := if Js.truthy (s_Master sh) then mm !! s_Master sh else None).
  destruct (bool_decide (s_Type sh = Some "Edge")
            || match mi with
               | Some mi0 => has CONNECTOR_MASTERS (Js.str_or (nameU mi0) (name mi0))
               | None => false
               end
            || hasEntry cm k) eqn:Hconn.
  - destruct (wireFrom cm k) as [f|] eqn:Hf; [|by right; left].
    destruct (wireTo cm k) as [t|] eqn:Ht; [|by right; left].
    destruct (Js.truthy (Some f) && Js.truthy (Some t)) eqn:Hb; [|by right; left].
    left. eexists. split; [reflexivity|]. simpl.
    apply andb_true_iff in Hb as [Hb1 Hb2].
    repeat split; try done; try by apply truthy_Some_ne.
    unfold wired. fold k. rewrite Hf, Ht. by rewrite Hb1, Hb2.
  - apply orb_false_iff in Hconn as [Hconn Hk].
    apply orb_false_iff in Hconn as [_ Hcm].
    case_bool_decide as Hl; [by right; left|].
    right; right. eexists. split; [reflexivity|]. simpl.
    repeat split; try done.
    unfold plainShape. simpl. by destruct mi.
Qed.

Lemma collectShapes_snoc mm cm ss sh :
  collectShapes mm cm (ss ++ [sh]) = collectShape mm cm (collectShapes mm cm ss) sh.
Proof. unfold collectShapes. by rewrite foldl_app. Qed.

(** What step 2 appends to [edges] for one [Shape] element: the wire of its
    wiring record when that has both ends, and nothing otherwise. *)
Lemma collectShape_fst mm cm es rs sh :
  fst (collectShape mm cm (es, rs) sh)
  = es ++ match Derived.wireEnds cm sh with
          | Some (f, t) =>
              [{| _visioSrcId := f; _visioTgtId := t;
                  re_tempId := import_edge (length es);
                  re_label := Derived.labelOf sh |}]
          | None => []
          end.
Proof.
  unfold collectShape, Derived.wireEnds, Derived.labelOf, wired.
  set (k := Js.propKey (s_ID sh)).
  set (mi := if Js.truthy (s_Master sh) then mm !! s_Master sh else None).
  destruct (wireFrom cm k) as [f|] eqn:Hf.
  - destruct (wireTo cm k) as [t|] eqn:Ht.
    + destruct (Js.truthy (Some f) && Js.truthy (Some t)) eqn:Hb.
      * assert (hasEntry cm k = true) as ->.
        { unfold hasEntry, wireFrom in *. destruct (cm !! k) eqn:E; [|done].
          by rewrite bool_decide_eq_true_2. }
        by rewrite !orb_true_r.
      * destruct (_ || _ || _); simpl.
        -- by rewrite app_nil_r.
        -- case_bool_decide; by rewrite app_nil_r.
    + rewrite andb_false_r.
      destruct (_ || _ || _); simpl; [|case_bool_decide]; by rewrite app_nil_r.
  - destruct (_ || _ || _); simpl.
    + destruct (wireTo cm k); by rewrite app_nil_r.
    + case_bool_decide; by rewrite app_nil_r.
Qed.



(** The wires of step 2 are, in document order, those of the shapes whose
    wiring record has both ends. *)
Lemma rawEdges_ends mm cm ss :
  (λ e, (_visioSrcId e, _visioTgtId e)) <$> fst (collectShapes mm cm ss)
  = omap (Derived.wireEnds cm) ss.
Proof.
  induction ss as [|sh ss IH] using rev_ind; [done|].
  rewrite collectShapes_snoc, omap_app.
  destruct (collectShapes mm cm ss) as [es rs] eqn:Hc. simpl in IH.
  rewrite collectShape_fst, fmap_app, IH. f_equal. simpl.
  by destruct (Derived.wireEnds cm sh) as [[f t]|].
Qed.


(** Every edge pushed in step 2 stems from a connector shape whose wiring
    record has both ends. *)
Lemma rawEdges_wired mm cm ss e :
  e ∈ fst (collectShapes mm cm ss) →
  ∃ sh, sh ∈ ss
        ∧ wireFrom cm (Js.propKey (s_ID sh)) = Some (_visioSrcId e)
        ∧ wireTo cm (Js.propKey (s_ID sh)) = Some (_visioTgtId e)
        ∧ _visioSrcId e ≠ "" ∧ _visioTgtId e ≠ "".
Proof.
  induction ss as [|sh ss IH] using rev_ind.
  - simpl. by intros ?%elem_of_nil.
  - rewrite collectShapes_snoc.
    destruct (collectShapes mm cm ss) as [es rs] eqn:Hc. simpl in IH.
    destruct (collectShape_cases mm cm es rs sh)
      as [(e' & -> & Hf & Ht & Hnf & Hnt & _)|[->|(s & -> & _)]]; simpl.
    + intros [He| ->%list_elem_of_singleton]%elem_of_app.
      * destruct (IH He) as (sh' & ? & ?). exists sh'. split; [|done].
        apply elem_of_app. by left.
      * exists sh. split; [|done]. apply elem_of_app. right. by left.
    + intros He. destruct (IH He) as (sh' & ? & ?). exists sh'. split; [|done].
      apply elem_of_app. by left.
    + intros He. destruct (IH He) as (sh' & ? & ?). exists sh'. split; [|done].
      apply elem_of_app. by left.
Qed.


(** Shapes retained in step 2 carry the identifier of their element, are not
    connector masters and follow the document order. *)
Lemma rawShapes_plain mm cm ss s :
  s ∈ snd (collectShapes mm cm ss) → plainShape s ∧ label s ≠ "".
Proof.
  induction ss as [|sh ss IH] using rev_ind.
  - simpl. by intros ?%elem_of_nil.
  - rewrite collectShapes_snoc.
    destruct (collectShapes mm cm ss) as [es rs] eqn:Hc. simpl in IH.
    destruct (collectShape_cases mm cm es rs sh)
      as [(e' & -> & _)|[->|(s' & -> & _ & Hp & Hl & _)]]; simpl; try done.
    intros [He| ->%list_elem_of_singleton]%elem_of_app; [by apply IH|done].
Qed.

Lemma rawShapes_ids_sublist mm cm ss :
  (shapeId <$> snd (collectShapes mm cm ss)) `sublist_of` (s_ID <$> ss).
Proof.
  induction ss as [|sh ss IH] using rev_ind; [done|].
  rewrite collectShapes_snoc, fmap_app.
  destruct (collectShapes mm cm ss) as [es rs] eqn:Hc. simpl in IH.
  destruct (collectShape_cases mm cm es rs sh)
    as [(e' & -> & _)|[->|(s' & -> & Hid & _)]]; simpl.
  - by apply sublist_inserts_r.
  - by apply sublist_inserts_r.
  - rewrite fmap_app. simpl. rewrite Hid. by apply sublist_app.
Qed.

(** *** Step 3: the start shape *)



Lemma sorted_nonempty (l : list RawShape) :
  l ≠ [] → ∃ s rest, js_sort cmpShape l = s :: rest.
Proof.
  intros Hne. destruct (js_sort cmpShape l) as [|s rest] eqn:E; [|by eauto].
  by apply js_sort_nil_inv in E.
Qed.

(** The array left behind by step 3. *)
Lemma selectStart_order (edges : list RawEdge) (rawShapes : list RawShape) :
  snd (selectStart edges rawShapes) =
    match noIncoming edges rawShapes with
    | [] => js_sort cmpShape rawShapes
    | _ :: _ => rawShapes
    end.
Proof.
  unfold selectStart.
  destruct (find _ (noIncoming edges rawShapes)) as [s|] eqn:Hf.
  - apply find_some in Hf as [Hin _].
    destruct (noIncoming edges rawShapes); [by destruct Hin|done].
  - destruct (noIncoming edges rawShapes) as [|c cs] eqn:Hc; [done|].
    destruct (sorted_nonempty (c :: cs)) as (s & rest & ->); done.
Qed.

Lemma selectStart_Permutation (edges : list RawEdge) (rawShapes : list RawShape) :
  snd (selectStart edges rawShapes) ≡ₚ rawShapes.
Proof.
  rewrite selectStart_order. destruct (noIncoming edges rawShapes); [|done].
  apply js_sort_Permutation.
Qed.


(** *** Step 4: the nodes *)

Lemma classifyShape_plain mi lbl :
  match mi with
  | Some i => has CONNECTOR_MASTERS (Js.str_or (nameU i) (name i)) = false
  | None => True
  end →
  classifyShape mi lbl ≠ connector.
Proof.
  unfold classifyShape. destruct mi as [i|].
  - intros ->. by destruct (has RESULT_MASTERS _).
  - intros _. by destruct (_ || _).
Qed.

Lemma type_nodeOf_ne_connector startId i s :
  plainShape s → type (nodeOf startId i s) ≠ connector.
Proof.
  intros Hp. simpl. destruct (bool_decide _); [done|].
  destruct (isTerminator s); [done|]. by apply classifyShape_plain.
Qed.

Lemma buildNode_plain startId k (m : gmap string string) ns s :
  plainShape s →
  buildNode startId (k, m, ns) s
  = (S k, Js.objSet (Js.propKey (shapeId s)) (import_node k) m,
     ns ++ [nodeOf startId k s]).
Proof.
  intros Hp. unfold buildNode.
  pose proof (type_nodeOf_ne_connector startId k s Hp) as Ht. simpl in Ht.
  rewrite bool_decide_eq_false_2 by done. done.
Qed.

Lemma buildNodes_spec startId (l : list RawShape) :
  Forall plainShape l →
  ∃ m : gmap string string,
    buildNodes startId l = (length l, m, imap (nodeOf startId) l)
    ∧ ∀ key v, m !! key = Some v → ∃ i, (i < length l)%nat ∧ v = import_node i.
Proof.
  induction l as [|s l IH] using rev_ind; intros Hall.
  - exists ∅. split; [done|]. intros key v. by rewrite lookup_empty.
  - apply Forall_app in Hall as [Hl Hs]. apply Forall_inv in Hs.
    destruct (IH Hl) as (m & Hm & Hval).
    exists (Js.objSet (Js.propKey (shapeId s)) (import_node (length l)) m). split.
    + unfold buildNodes in *. rewrite foldl_app, Hm. cbn [foldl].
      rewrite buildNode_plain by done.
      rewrite imap_app, length_app. simpl.
      by rewrite Nat.add_0_r, Nat.add_1_r.
    + intros key v. rewrite length_app. simpl.
      intros [[_ ->]|Hv]%JsFacts.objSet_lookup_Some.
      * exists (length l). split; [lia|done].
      * destruct (Hval key v Hv) as (i & Hi & ->). exists i. split; [lia|done].
Qed.

Lemma shapeOrder_eq page mastersXml :
  shapeOrder mastersXml page
  = snd (selectStart (rawEdgesOf page mastersXml) (rawShapesOf page mastersXml)).
Proof.
  unfold shapeOrder, rawEdgesOf, rawShapesOf.
  by destruct (collectShapes _ _ _).
Qed.

Lemma shapeOrder_Permutation page mastersXml :
  shapeOrder mastersXml page ≡ₚ rawShapesOf page mastersXml.
Proof. rewrite shapeOrder_eq. apply selectStart_Permutation. Qed.

Lemma shapeOrder_plain page mastersXml :
  Forall plainShape (shapeOrder mastersXml page).
Proof.
  rewrite shapeOrder_Permutation. apply Forall_forall. intros s Hs.
  by apply (rawShapes_plain _ _ _ _ Hs).
Qed.

Lemma assembledNodes_eq page mastersXml :
  assembledNodes page mastersXml
  = imap (nodeOf (startShapeId (startShapeOf page mastersXml)))
         (shapeOrder mastersXml page).
Proof.
  unfold assembledNodes.
  destruct (buildNodes_spec (startShapeId (startShapeOf page mastersXml))
              (shapeOrder mastersXml page) (shapeOrder_plain _ _)) as (m & -> & _).
  done.
Qed.

Lemma idMapOf_values page mastersXml key v :
  idMapOf page mastersXml !! key = Some v →
  ∃ i, (i < length (shapeOrder mastersXml page))%nat ∧ v = import_node i.
Proof.
  unfold idMapOf.
  destruct (buildNodes_spec (startShapeId (startShapeOf page mastersXml))
              (shapeOrder mastersXml page) (shapeOrder_plain _ _)) as (m & -> & Hv).
  simpl. apply Hv.
Qed.

Lemma parseVisioXml_nodes page mastersXml :
  nodes (parseVisioXml page mastersXml) = fallbackStart (assembledNodes page mastersXml).
Proof.
  unfold parseVisioXml, assembledNodes, startShapeOf, startShape, shapeOrder,
    rawEdgesOf, rawShapesOf.
  destruct (collectShapes _ _ _) as [es rs]. simpl.
  destruct (selectStart es rs) as [st rs']. simpl.
  by destruct (buildNodes _ _) as [[k m] ns].
Qed.

Lemma parseVisioXml_edges page mastersXml :
  edges (parseVisioXml page mastersXml)
  = filter (λ e, validEdge e = true)
      (resolveEdge (idMapOf page mastersXml) <$> rawEdgesOf page mastersXml).
Proof.
  unfold parseVisioXml, idMapOf, startShapeOf, startShape, shapeOrder,
    rawEdgesOf, rawShapesOf.
  destruct (collectShapes _ _ _) as [es rs]. simpl.
  destruct (selectStart es rs) as [st rs']. simpl.
  by destruct (buildNodes _ _) as [[k m] ns].
Qed.

Lemma import_node_inj i j : import_node i = import_node j → i = j.
Proof.
  unfold import_node. intros H%(inj (String.app _)). by apply (inj pretty) in H.
Qed.

Lemma tempId_imap_nodeOf startId (l : list RawShape) :
  tempId <$> imap (nodeOf startId) l = import_node <$> seq 0 (length l).
Proof.
  rewrite fmap_imap. rewrite <- (imap_seq_0 l import_node).
  by apply imap_ext.
Qed.

Lemma assembledNodes_tempIds_NoDup page mastersXml :
  NoDup (tempId <$> assembledNodes page mastersXml).
Proof.
  rewrite assembledNodes_eq, tempId_imap_nodeOf.
  apply NoDup_fmap_2_strong; [|apply NoDup_seq].
  intros i j _ _. apply import_node_inj.
Qed.

(** *** The fallback *)

Lemma forceStart_fmap {B} (f : Node → B) id (l : list Node) :
  (∀ n, f (forced n) = f n) → f <$> forceStart id l = f <$> l.
Proof.
  intros Hf. induction l as [|n l IH]; [done|]. cbn [forceStart].
  case_bool_decide; rewrite !fmap_cons; [|by rewrite IH].
  f_equal. apply (Hf n).
Qed.

Lemma fallbackStart_fmap {B} (f : Node → B) (l : list Node) :
  (∀ n, f (forced n) = f n) → f <$> fallbackStart l = f <$> l.
Proof.
  intros Hf. unfold fallbackStart. destruct (needsFallback l); [|done].
  destruct (js_sort cmpNode l); [done|]. by apply forceStart_fmap.
Qed.

Lemma forceStart_insert id (l : list Node) i n :
  NoDup (tempId <$> l) → l !! i = Some n → tempId n = id →
  forceStart id l = <[i := forced n]> l.
Proof.
  revert i. induction l as [|a l IH]; intros i Hnd Hi Hid; [done|].
  rewrite fmap_cons in Hnd. apply NoDup_cons in Hnd as [Ha Hnd].
  destruct i as [|i]; simpl in *.
  - injection Hi as ->. by rewrite bool_decide_eq_true_2.
  - rewrite bool_decide_eq_false_2.
    + f_equal. by apply IH.
    + intros E. apply Ha. rewrite E, <- Hid.
      apply list_elem_of_fmap_2. by eapply list_elem_of_lookup_2.
Qed.

Lemma existsb_is_start_false (l : list Node) :
  existsb is_start l = false ↔ ∀ n, n ∈ l → is_start n = false.
Proof.
  induction l as [|a l IH]; simpl.
  - split; [by intros _ n ?%elem_of_nil|done].
  - rewrite orb_false_iff, IH. split.
    + intros [Ha Hl] n [->|Hn]%elem_of_cons; auto.
    + intros H. split; [apply H; by left|]. intros n Hn. apply H. by right.
Qed.

Lemma countStart_zero (l : list Node) :
  existsb is_start l = false → countStart l = 0%nat.
Proof.
  rewrite existsb_is_start_false. unfold countStart.
  induction l as [|a l IH]; intros H; [done|].
  rewrite filter_cons_False.
  - apply IH. intros n Hn. apply H. by right.
  - rewrite (H a) by (by left). done.
Qed.

Lemma countStart_pos (l : list Node) :
  existsb is_start l = true → (1 ≤ countStart l)%nat.
Proof.
  unfold countStart. induction l as [|a l IH]; simpl; [done|].
  destruct (is_start a) eqn:Ea; simpl.
  - intros _. rewrite filter_cons_True by done. simpl. lia.
  - intros H. rewrite filter_cons_False by (rewrite Ea; done). by apply IH.
Qed.

Lemma countStart_forceStart id (l : list Node) :
  existsb is_start l = false → (∃ n, n ∈ l ∧ tempId n = id) →
  countStart (forceStart id l) = 1%nat.
Proof.
  induction l as [|a l IH]; simpl.
  - intros _ (n & []%elem_of_nil & _).
  - intros [Ha Hl]%orb_false_iff (n & Hn & Hid).
    case_bool_decide as Hd.
    + unfold countStart. rewrite filter_cons_True by done. simpl.
      f_equal. by apply countStart_zero.
    + unfold countStart. rewrite filter_cons_False by (rewrite Ha; done).
      apply IH; [done|]. exists n. split; [|done].
      apply elem_of_cons in Hn as [->|Hn]; [by destruct Hd|done].
Qed.

(** When the guard holds the fallback rewrites exactly the least node. *)
Lemma fallbackStart_engaged (l : list Node) :
  NoDup (tempId <$> l) → needsFallback l = true →
  ∃ i n, l !! i = Some n ∧ smallestYX n l ∧ fallbackStart l = <[i := forced n]> l.
Proof.
  intros Hnd Hg. unfold fallbackStart. rewrite Hg.
  destruct (js_sort cmpNode l) as [|n rest] eqn:E.
  - apply js_sort_nil_inv in E. subst l.
    unfold needsFallback in Hg. simpl in Hg. done.
  - destruct (js_sort_head_least cmpNode cmpNode_trans cmpNode_total l n rest E)
      as [Hin Hmin].
    destruct (list_elem_of_lookup_1 _ _ Hin) as [i Hi].
    exists i, n. split; [done|]. split.
    + split; [done|]. intros m Hm. apply cmpNode_notAfter. by apply Hmin.
    + by apply forceStart_insert.
Qed.

Lemma countStart_fallbackStart (l : list Node) :
  l ≠ [] → (1 ≤ countStart (fallbackStart l))%nat
           ∧ ((countStart l ≤ 1)%nat → countStart (fallbackStart l) = 1%nat).
Proof.
  intros Hne. unfold fallbackStart, needsFallback.
  destruct (existsb is_start l) eqn:Ex; simpl.
  - pose proof (countStart_pos l Ex). split; lia.
  - rewrite bool_decide_eq_true_2 by (destruct l; [done|simpl; lia]).
    destruct (js_sort cmpNode l) as [|n rest] eqn:E.
    { by apply js_sort_nil_inv in E. }
    assert (n ∈ l) as Hin.
    { rewrite <- (js_sort_Permutation cmpNode l), E. by left. }
    rewrite countStart_forceStart; [split; done|done|by exists n].
Qed.

Lemma elem_of_forceStart id (l : list Node) n :
  n ∈ forceStart id l → n ∈ l ∨ ∃ n', n = forced n'.
Proof.
  induction l as [|a l IH]; simpl; [by left|].
  case_bool_decide.
  - intros [->|Hn]%elem_of_cons; [right; by exists a|left; by right].
  - intros [->|Hn]%elem_of_cons; [left; by left|].
    destruct (IH Hn) as [?|?]; [left; by right|by right].
Qed.

Lemma elem_of_fallbackStart (l : list Node) n :
  n ∈ fallbackStart l → n ∈ l ∨ ∃ n', n = forced n'.
Proof.
  unfold fallbackStart. destruct (needsFallback l); [|by left].
  destruct (js_sort cmpNode l); [by left|]. apply elem_of_forceStart.
Qed.

Lemma fallbackStart_length (l : list Node) : length (fallbackStart l) = length l.
Proof.
  rewrite <- (length_fmap tempId (fallbackStart l)), <- (length_fmap tempId l).
  f_equal. by apply fallbackStart_fmap.
Qed.

Lemma startShape_elem es (rs : list RawShape) s : startShape es rs = Some s → s ∈ rs.
Proof.
  unfold startShape, selectStart.
  destruct (find _ (noIncoming es rs)) as [s'|] eqn:Hf; simpl.
  - intros [= <-]. apply find_some in Hf as [Hin _].
    apply list_elem_of_In in Hin. unfold noIncoming in Hin.
    by apply list_elem_of_filter in Hin as [_ ?].
  - destruct (js_sort cmpShape (noIncoming es rs)) as [|c cs] eqn:E; simpl.
    + destruct (js_sort cmpShape rs) as [|c cs] eqn:E'; simpl; [done|].
      intros [= <-]. rewrite <- (js_sort_Permutation cmpShape rs), E'. by left.
    + intros [= <-].
      assert (c ∈ noIncoming es rs) as Hin.
      { rewrite <- (js_sort_Permutation cmpShape (noIncoming es rs)), E. by left. }
      unfold noIncoming in Hin. by apply list_elem_of_filter in Hin as [_ ?].
Qed.

Lemma elem_of_assembledNodes page mastersXml n :
  n ∈ assembledNodes page mastersXml ↔
  ∃ i s, shapeOrder mastersXml page !! i = Some s
         ∧ n = nodeOf (startShapeId (startShapeOf page mastersXml)) i s.
Proof.
  rewrite assembledNodes_eq, list_elem_of_lookup. split.
  - intros (i & Hi). rewrite list_lookup_imap in Hi.
    destruct (shapeOrder mastersXml page !! i) as [s|] eqn:Hs; [|done].
    injection Hi as <-. by exists i, s.
  - intros (i & s & Hs & ->). exists i. by rewrite list_lookup_imap, Hs.
Qed.

(** C4 (amended). In the Visio route a node emitted as the start node has
    type [question]; and unless its [ID] attribute is the empty string, the
    shape picked by step 3 is emitted as the start node with type [question],
    whatever its master or label would classify it as (terminator masters
    included). *)
Theorem C4_start_node_is_question (page : Page) (mastersXml : option (list MasterElem)) :
  (∀ n, n ∈ nodes (parseVisioXml page mastersXml) →
        is_start n = true → type n = question)
  ∧ (∀ s, startShapeOf page mastersXml = Some s → shapeId s ≠ Some "" →
        ∃ n, n ∈ nodes (parseVisioXml page mastersXml)
             ∧ visioId n = shapeId s ∧ title n = label s
             ∧ is_start n = true ∧ type n = question).
Proof.
  rewrite parseVisioXml_nodes. split.
  - intros n [Hn|[n' ->]]%elem_of_fallbackStart; [|done].
    apply elem_of_assembledNodes in Hn as (i & s & _ & ->). simpl.
    by intros ->.
  - intros s Hs Hne.
    assert (s ∈ shapeOrder mastersXml page) as Hin.
    { rewrite shapeOrder_Permutation. by eapply startShape_elem. }
    apply list_elem_of_lookup_1 in Hin as [i Hi].
    set (sid := startShapeId (startShapeOf page mastersXml)).
    assert (shapeId s = sid) as Hsid.
    { unfold sid. rewrite Hs. simpl. destruct (shapeId s) as [k|] eqn:Ek; [|done].
      rewrite (proj2 (truthy_Some_ne k)); [done|]. congruence. }
    assert (nodeOf sid i s ∈ assembledNodes page mastersXml) as Hn.
    { apply elem_of_assembledNodes. by exists i, s. }
    assert (fallbackStart (assembledNodes page mastersXml)
            = assembledNodes page mastersXml) as ->.
    { unfold fallbackStart, needsFallback.
      destruct (existsb is_start (assembledNodes page mastersXml)) eqn:Ex; [done|].
      rewrite existsb_is_start_false in Ex. specialize (Ex _ Hn). simpl in Ex.
      by rewrite bool_decide_eq_true_2 in Ex. }
    exists (nodeOf sid i s). split; [done|]. simpl.
    by rewrite bool_decide_eq_true_2.
Qed.

(** C4 as claimed fails: on this page step 3 picks the terminator shape,
    whose [ID] is empty, so [startShapeId] is [null]; the shape is emitted as
    a [result] that is not the start node, and the fallback turns the other
    node into the start node. *)
Lemma C4_start_shape_emitted_as_result :
  (λ s, (shapeId s, label s, isTerminator s))
    <$> startShapeOf Scenarios.emptyIdTerminatorPage (Some Scenarios.scenarioMasters)
  = Some (Some "", "Begin", true)
  ∧ startShapeId (startShapeOf Scenarios.emptyIdTerminatorPage
                    (Some Scenarios.scenarioMasters)) = None
  ∧ (λ n, (visioId n, title n, type n, is_start n))
      <$> nodes (parseVisioXml Scenarios.emptyIdTerminatorPage
                   (Some Scenarios.scenarioMasters))
    = [(Some "", "Begin", result, false); (Some "2", "Card valid?", question, true)].
Proof. vm_compute. done. Qed.

Lemma StronglySorted_weaken {A} (R R' : A → A → Prop) (l : list A) :
  (∀ a b, R a b → R' a b) → StronglySorted R l → StronglySorted R' l.
Proof.
  intros HR. induction 1 as [|a l Hs IH Hall]; constructor; [done|].
  eapply Forall_impl; [exact Hall|]. intros b. apply HR.
Qed.

Lemma parsed_fields page mastersXml :
  let order := shapeOrder mastersXml page in
  let ns := nodes (parseVisioXml page mastersXml) in
  visioId <$> ns = shapeId <$> order
  ∧ title <$> ns = label <$> order
  ∧ tempId <$> ns = import_node <$> seq 0 (length order).
Proof.
  intros order ns. unfold ns.
  rewrite parseVisioXml_nodes, !fallbackStart_fmap by done.
  rewrite assembledNodes_eq. fold order.
  split; [|split].
  - rewrite fmap_imap. rewrite <- (imap_const shapeId order). by apply imap_ext.
  - rewrite fmap_imap. rewrite <- (imap_const label order). by apply imap_ext.
  - apply tempId_imap_nodeOf.
Qed.


(** *** Start count and edge endpoints *)

Lemma filter_key_at_most_one {A B} `{EqDecision B} (f : A → B) (a : B) (l : list A) :
  NoDup (f <$> l) → (length (filter (λ x, f x = a) l) ≤ 1)%nat.
Proof.
  induction l as [|x l IH]; [simpl; lia|].
  rewrite fmap_cons. intros [Hx Hnd]%NoDup_cons.
  destruct (decide (f x = a)) as [E|E].
  - rewrite filter_cons_True by done. simpl.
    destruct (filter (λ y, f y = a) l) as [|y ys] eqn:Ef; [simpl; lia|].
    assert (y ∈ filter (λ y, f y = a) l) as Hy by (rewrite Ef; by left).
    apply list_elem_of_filter in Hy as [Ey Hy]. destruct Hx.
    rewrite E, <- Ey. by apply list_elem_of_fmap_2.
  - rewrite filter_cons_False by done. by apply IH.
Qed.

Lemma countStart_imap_nodeOf sid (g : nat → nat) (l : list RawShape) :
  countStart (imap (λ i, nodeOf sid (g i)) l)
  = length (filter (λ s, shapeId s = sid) l).
Proof.
  revert g. induction l as [|s l IH]; intros g; [done|].
  rewrite imap_cons. unfold countStart in *.
  destruct (decide (shapeId s = sid)) as [E|E].
  - rewrite !filter_cons_True; [|done|simpl; by rewrite bool_decide_eq_true_2].
    simpl. f_equal. apply (IH (g ∘ S)).
  - rewrite !filter_cons_False; [|done|simpl; by rewrite bool_decide_eq_false_2].
    apply (IH (g ∘ S)).
Qed.

Lemma shapeOrder_ids_NoDup page mastersXml :
  NoDup (s_ID <$> shapes page) → NoDup (shapeId <$> shapeOrder mastersXml page).
Proof.
  intros Hnd. rewrite shapeOrder_Permutation.
  eapply sublist_NoDup; [exact Hnd|apply rawShapes_ids_sublist].
Qed.

Lemma visio_start_count page mastersXml :
  nodes (parseVisioXml page mastersXml) ≠ [] →
  (1 ≤ countStart (nodes (parseVisioXml page mastersXml)))%nat
  ∧ (NoDup (s_ID <$> shapes page) →
       countStart (nodes (parseVisioXml page mastersXml)) = 1%nat).
Proof.
  rewrite parseVisioXml_nodes. intros Hne.
  assert (assembledNodes page mastersXml ≠ []) as Hne0.
  { intros E. apply Hne. by rewrite E. }
  destruct (countStart_fallbackStart _ Hne0) as [H1 H2].
  split; [done|]. intros Hnd. apply H2.
  rewrite assembledNodes_eq.
  rewrite (countStart_imap_nodeOf _ id).
  apply filter_key_at_most_one. by apply shapeOrder_ids_NoDup.
Qed.

Lemma tempId_of_index page mastersXml i :
  (i < length (shapeOrder mastersXml page))%nat →
  ∃ n, n ∈ nodes (parseVisioXml page mastersXml) ∧ tempId n = import_node i.
Proof.
  intros Hi.
  destruct (parsed_fields page mastersXml) as (_ & _ & Hids).
  assert (import_node i ∈ tempId <$> nodes (parseVisioXml page mastersXml)) as Hin.
  { rewrite Hids. apply list_elem_of_fmap_2. apply elem_of_seq. lia. }
  apply list_elem_of_fmap in Hin as (n & Hn & Hin). by exists n.
Qed.

(** What [idMap] answers for a wire end: the [tempId] of a node or, when
    the end names a member inherited from [Object.prototype], that member. *)
Lemma idMap_answer page mastersXml k :
  Js.truthyRef (Js.refOrNull (Js.objGet (idMapOf page mastersXml) k)) = true →
  (∃ n, n ∈ nodes (parseVisioXml page mastersXml)
        ∧ Js.refOrNull (Js.objGet (idMapOf page mastersXml) k) = Some (Js.Id (tempId n)))
  ∨ (k ∈ Js.protoMembers
     ∧ Js.refOrNull (Js.objGet (idMapOf page mastersXml) k) = Some (Js.Inherited k)).
Proof.
  rewrite JsFacts.refOrNull_truthy. intros Ht.
  rewrite (JsFacts.refOrNull_of_truthy _ Ht).
  destruct (JsFacts.objGet_cases (idMapOf page mastersXml) k)
    as [(v & Hv & E)|[(_ & Hk & E)|(_ & _ & E)]]; rewrite E in Ht |- *.
  - left. apply idMapOf_values in Hv as (i & Hi & ->).
    destruct (tempId_of_index page mastersXml i Hi) as (n & Hn & <-). by exists n.
  - by right.
  - done.
Qed.

Lemma visio_edges_resolved page mastersXml e :
  e ∈ edges (parseVisioXml page mastersXml) →
  ∃ re, re ∈ rawEdgesOf page mastersXml
        ∧ e = resolveEdge (idMapOf page mastersXml) re
        ∧ ((∃ n, n ∈ nodes (parseVisioXml page mastersXml)
                 ∧ sourceId e = Some (Js.Id (tempId n)))
           ∨ (_visioSrcId re ∈ Js.protoMembers
              ∧ sourceId e = Some (Js.Inherited (_visioSrcId re))))
        ∧ ((∃ n, n ∈ nodes (parseVisioXml page mastersXml)
                 ∧ targetId e = Some (Js.Id (tempId n)))
           ∨ (_visioTgtId re ∈ Js.protoMembers
              ∧ targetId e = Some (Js.Inherited (_visioTgtId re)))).
Proof.
  rewrite parseVisioXml_edges.
  intros [Hv (re & -> & Hre)%list_elem_of_fmap]%list_elem_of_filter.
  unfold validEdge in Hv. apply andb_true_iff in Hv as [Hs Ht]. simpl in *.
  exists re. split; [done|]. split; [done|].
  split; by apply idMap_answer.
Qed.

(** *** Step 1: the wiring table *)

Lemma addConnect_lookup (cm : gmap string Wire) c k :
  addConnect cm c !! k =
    if decide (Js.propKey (FromSheet c) = k) then
      let w := default emptyWire (cm !! k) in
      Some {| from := if decide (FromPart c = Some "9") then ToSheet c else from w;
              to := if decide (FromPart c = Some "12") then ToSheet c else to w |}
    else cm !! k.
Proof.
  unfold addConnect.
  set (fs := Js.propKey (FromSheet c)).
  set (cm0 := match cm !! fs with Some _ => cm | None => <[fs:=emptyWire]> cm end).
  assert (cm0 !! k = if decide (fs = k) then Some (default emptyWire (cm !! k))
                     else cm !! k) as H0.
  { unfold cm0. destruct (decide (fs = k)) as [<-|Hne].
    - destruct (cm !! fs) eqn:E; [by rewrite E|by rewrite lookup_insert_eq].
    - destruct (cm !! fs); [done|by rewrite lookup_insert_ne]. }
  destruct (decide (fs = k)) as [<-|Hne].
  - repeat case_bool_decide; repeat case_decide; try done;
      rewrite ?lookup_alter_eq, H0; simpl; try done.
    by destruct (default emptyWire (cm !! fs)).
  - repeat case_bool_decide; rewrite ?lookup_alter_ne by done; done.
Qed.

Lemma lastEnd_snoc part k cs c :
  lastEnd part k (cs ++ [c]) =
    if decide (Js.propKey (FromSheet c) = k ∧ FromPart c = Some part)
    then ToSheet c else lastEnd part k cs.
Proof.
  unfold lastEnd. rewrite filter_app.
  case_decide as H.
  - rewrite filter_cons_True, filter_nil by done.
    rewrite fmap_app. change (ToSheet <$> [c]) with [ToSheet c].
    by rewrite last_snoc.
  - rewrite filter_cons_False, filter_nil by done. by rewrite app_nil_r.
Qed.

Lemma lastEnd_absent part k cs :
  ¬ Exists (λ c, Js.propKey (FromSheet c) = k) cs → lastEnd part k cs = None.
Proof.
  intros Hn. unfold lastEnd.
  destruct (filter _ cs) as [|c l] eqn:Ef; [done|]. exfalso. apply Hn.
  assert (c ∈ filter (λ c, Js.propKey (FromSheet c) = k ∧ FromPart c = Some part) cs)
    as Hc by (rewrite Ef; by left).
  apply list_elem_of_filter in Hc as [[Hk _] Hc].
  apply Exists_exists. by exists c.
Qed.

Lemma buildConnectorMap_lookup cs k :
  buildConnectorMap cs !! k =
    if bool_decide (Exists (λ c, Js.propKey (FromSheet c) = k) cs)
    then Some {| from := lastEnd "9" k cs; to := lastEnd "12" k cs |}
    else None.
Proof.
  induction cs as [|c cs IH] using rev_ind.
  - rewrite bool_decide_eq_false_2; [done|]. by intros ?%Exists_nil.
  - unfold buildConnectorMap in *. rewrite foldl_app. cbn [foldl].
    rewrite addConnect_lookup, IH, !lastEnd_snoc.
    destruct (decide (Js.propKey (FromSheet c) = k)) as [E|E].
    + rewrite (bool_decide_eq_true_2 (Exists _ (cs ++ [c]))).
      2:{ apply Exists_app. right. by constructor. }
      assert (default emptyWire
                (if bool_decide (Exists (λ c0, Js.propKey (FromSheet c0) = k) cs)
                 then Some {| from := lastEnd "9" k cs; to := lastEnd "12" k cs |}
                 else None)
              = {| from := lastEnd "9" k cs; to := lastEnd "12" k cs |}) as ->.
      { case_bool_decide as Hex; [done|]. by rewrite !lastEnd_absent. }
      cbn [from to]. f_equal. f_equal.
      * destruct (decide (FromPart c = Some "9")) as [H9|H9].
        -- by rewrite decide_True.
        -- rewrite decide_False; [done|]. by intros [_ ?].
      * destruct (decide (FromPart c = Some "12")) as [H12|H12].
        -- by rewrite decide_True.
        -- rewrite decide_False; [done|]. by intros [_ ?].
    + assert (Exists (λ c, Js.propKey (FromSheet c) = k) (cs ++ [c])
              ↔ Exists (λ c, Js.propKey (FromSheet c) = k) cs) as Hiff.
      { rewrite Exists_app, Exists_cons, Exists_nil. split; [|by left].
        intros [Hx|[Hx|[]]]; [done|by destruct E]. }
      rewrite (bool_decide_ext _ _ Hiff).
      case_bool_decide; [|done]. f_equal.
      rewrite !decide_False; [done| |]; intros [Hk _]; exact (E Hk).
Qed.

Lemma lastEnd_elem part k cs t :
  lastEnd part k cs = Some t → ∃ c, c ∈ cs ∧ ToSheet c = Some t.
Proof.
  unfold lastEnd.
  destruct (last _) as [o|] eqn:E; [|done]. simpl. intros ->.
  apply last_Some in E as [l' E].
  assert (Some t ∈ ToSheet <$>
            filter (λ c, Js.propKey (FromSheet c) = k ∧ FromPart c = Some part) cs) as Hin.
  { rewrite E. apply elem_of_app. right. by left. }
  apply list_elem_of_fmap in Hin as (c & Hc & [_ Hin]%list_elem_of_filter).
  by exists c.
Qed.

Lemma wire_end_elem cs k t :
  wireFrom (buildConnectorMap cs) k = Some t ∨ wireTo (buildConnectorMap cs) k = Some t →
  ∃ c, c ∈ cs ∧ ToSheet c = Some t.
Proof.
  unfold wireFrom, wireTo. rewrite buildConnectorMap_lookup.
  case_bool_decide; simpl; [|by intros [?|?]].
  intros [He|He]; by eapply lastEnd_elem.
Qed.

(** When no [ToSheet] names an inherited member, both ends of every emitted
    edge are the [tempId] of nodes of the graph. *)
Lemma visio_edges_closed page mastersXml e :
  Derived.ordinaryEnds page = true →
  e ∈ edges (parseVisioXml page mastersXml) →
  ∃ n1 n2, n1 ∈ nodes (parseVisioXml page mastersXml)
           ∧ n2 ∈ nodes (parseVisioXml page mastersXml)
           ∧ sourceId e = Some (Js.Id (tempId n1))
           ∧ targetId e = Some (Js.Id (tempId n2)).
Proof.
  intros Hord (re & Hre & _ & Hs & Ht)%visio_edges_resolved.
  assert (∀ t, (∃ c, c ∈ connects page ∧ ToSheet c = Some t) → t ∉ Js.protoMembers)
    as Hends.
  { intros t (c & Hc & Hto) Hin. unfold Derived.ordinaryEnds in Hord.
    rewrite forallb_forall in Hord. apply list_elem_of_In in Hc.
    specialize (Hord c Hc). rewrite Hto in Hord.
    apply negb_true_iff, bool_decide_eq_false in Hord. done. }
  destruct (rawEdges_wired _ _ _ re Hre) as (sh & _ & Hf & Hto & _).
  destruct Hs as [(n1 & Hn1 & Hs)|[Hin _]].
  2:{ exfalso. apply (Hends (_visioSrcId re)); [|done].
      eapply wire_end_elem. left. exact Hf. }
  destruct Ht as [(n2 & Hn2 & Ht)|[Hin _]].
  2:{ exfalso. apply (Hends (_visioTgtId re)); [|done].
      eapply wire_end_elem. right. exact Hto. }
  by exists n1, n2.
Qed.




(** *** [handleFile] *)

Lemma handleFile_Reviewable page mastersXml g w :
  handleFile page mastersXml = Reviewable g w →
  g = parseVisioXml page mastersXml
  ∧ nodes g ≠ []
  ∧ w = match mastersXml with None => [NoMastersFile] | Some _ => [] end
        ++ (if bool_decide (length (edges g) = 0%nat) then [NoConnectorsFound] else [])
        ++ match mastersXml with
           | Some _ => [DetectedTypes (countType question (nodes g))
                                      (countType result (nodes g))]
           | None => []
           end.
Proof.
  unfold handleFile. case_bool_decide as Hlen; [done|].
  assert (nodes (parseVisioXml page mastersXml) ≠ []) as Hne.
  { intros E. apply Hlen. by rewrite E. }
  destruct (visio_start_count page mastersXml Hne) as [Hpos _].
  destruct (existsb is_start (nodes (parseVisioXml page mastersXml))) eqn:Ex.
  2:{ apply countStart_zero in Ex. lia. }
  simpl. intros [= <- <-]. split; [done|]. split; [done|].
  destruct mastersXml; case_bool_decide; simpl; done.
Qed.

Lemma handleFile_total page mastersXml :
  rawShapesOf page mastersXml ≠ [] →
  ∃ w, handleFile page mastersXml = Reviewable (parseVisioXml page mastersXml) w.
Proof.
  intros Hne.
  assert (length (nodes (parseVisioXml page mastersXml)) ≠ 0%nat) as Hlen.
  { rewrite parseVisioXml_nodes, fallbackStart_length, assembledNodes_eq, length_imap.
    rewrite shapeOrder_Permutation. by destruct (rawShapesOf page mastersXml). }
  unfold handleFile. rewrite bool_decide_eq_false_2 by done. eauto.
Qed.

Lemma handleFile_fails page mastersXml :
  rawShapesOf page mastersXml = [] →
  handleFile page mastersXml
  = Failed "No shapes with text found on this page. Make sure your shapes have labels.".
Proof.
  intros Hraw. unfold handleFile.
  rewrite bool_decide_eq_true_2; [done|].
  rewrite parseVisioXml_nodes, fallbackStart_length, assembledNodes_eq, length_imap,
    shapeOrder_Permutation.
  by rewrite Hraw.
Qed.

Lemma warnings_kinds (mastersXml : option (list MasterElem)) (b : bool) q r x :
  x ∈ match mastersXml with None => [NoMastersFile] | Some _ => [] end
      ++ (if b then [NoConnectorsFound] else [])
      ++ match mastersXml with Some _ => [DetectedTypes q r] | None => [] end →
  x = NoMastersFile ∨ x = NoConnectorsFound ∨ ∃ q r, x = DetectedTypes q r.
Proof.
  intros Hx.
  apply elem_of_app in Hx as [Hx|Hx]; [|apply elem_of_app in Hx as [Hx|Hx]].
  - destruct mastersXml; [by apply elem_of_nil in Hx|].
    apply list_elem_of_singleton in Hx as ->. by left.
  - destruct b; [|by apply elem_of_nil in Hx].
    apply list_elem_of_singleton in Hx as ->. right; by left.
  - destruct mastersXml; [|by apply elem_of_nil in Hx].
    apply list_elem_of_singleton in Hx as ->. right; right; eauto.
Qed.

(** C5 (amended). When step 4 leaves a non-empty node list without a start
    node, the node with the smallest [y] and, on ties, the smallest [x] is
    turned into the start node with type [question], all other nodes being
    kept as they are; the warnings of the import contain no entry for this. *)
Theorem C5_fallback_start_node (page : Page) (mastersXml : option (list MasterElem)) :
  let ns0 := assembledNodes page mastersXml in
  existsb is_start ns0 = false → ns0 ≠ [] →
  (∃ i n, ns0 !! i = Some n ∧ smallestYX n ns0
          ∧ nodes (parseVisioXml page mastersXml) = <[i := forced n]> ns0)
  ∧ ∃ w, handleFile page mastersXml = Reviewable (parseVisioXml page mastersXml) w
         ∧ ∀ x, x ∈ w → x = NoMastersFile ∨ x = NoConnectorsFound
                        ∨ ∃ q r, x = DetectedTypes q r.
Proof.
  intros ns0 Hno Hne. split.
  - rewrite parseVisioXml_nodes. fold ns0.
    apply fallbackStart_engaged; [apply assembledNodes_tempIds_NoDup|].
    unfold needsFallback. rewrite Hno. simpl.
    apply bool_decide_eq_true_2. destruct ns0; [done|simpl; lia].
  - assert (rawShapesOf page mastersXml ≠ []) as Hraw.
    { intros E. apply Hne. unfold ns0. rewrite assembledNodes_eq.
      assert (shapeOrder mastersXml page = []) as ->; [|done].
      apply Permutation_nil_r. by rewrite <- E, shapeOrder_Permutation. }
    destruct (handleFile_total page mastersXml Hraw) as [w Hw].
    exists w. split; [done|].
    apply handleFile_Reviewable in Hw as (_ & _ & ->).
    apply warnings_kinds.
Qed.

Lemma C5_fallback_start_node_witness :
  ∃ i n, assembledNodes Scenarios.emptyIdPage (Some []) !! i = Some n
         ∧ smallestYX n (assembledNodes Scenarios.emptyIdPage (Some []))
         ∧ nodes (parseVisioXml Scenarios.emptyIdPage (Some []))
           = <[i := forced n]> (assembledNodes Scenarios.emptyIdPage (Some [])).
Proof.
  refine (proj1 (C5_fallback_start_node Scenarios.emptyIdPage (Some []) _ _)).
  - vm_compute. reflexivity.
  - vm_compute. discriminate.
Defined.

(** C5 as claimed fails: on this page the fallback runs (no node is flagged
    after step 4, one is afterwards), yet the only warning of the import is
    the summary of detected types. *)
Lemma C5_fallback_records_no_warning :
  needsFallback (assembledNodes Scenarios.emptyIdPage (Some [])) = true
  ∧ is_start <$> assembledNodes Scenarios.emptyIdPage (Some []) = [false; false; false]
  ∧ ∃ g, handleFile Scenarios.emptyIdPage (Some []) = Reviewable g [DetectedTypes 3 0]
         ∧ is_start <$> nodes g = [true; false; false].
Proof.
  split; [vm_compute; reflexivity|]. split; [vm_compute; reflexivity|].
  eexists. split; vm_compute; reflexivity.
Qed.




(** Without a catalog every retained shape lacks master information and is
    no terminator, so its type rests on the label alone. *)
Lemma no_catalog_no_masterInfo (page : Page) s :
  s ∈ rawShapesOf page None → masterInfo s = None ∧ isTerminator s = false.
Proof.
  unfold rawShapesOf. generalize (buildConnectorMap (connects page)) as cm.
  intros cm. induction (shapes page) as [|sh ss IH] using rev_ind.
  - simpl. by intros ?%elem_of_nil.
  - rewrite collectShapes_snoc.
    destruct (collectShapes (parseMasters None) cm ss) as [es rs] eqn:Hc.
    simpl in IH.
    destruct (collectShape_cases (parseMasters None) cm es rs sh)
      as [(e' & -> & _)|[->|(s' & -> & _ & _ & _ & _ & Hmi & Hterm)]];
      simpl; try done.
    intros [He| ->%list_elem_of_singleton]%elem_of_app; [by apply IH|].
    assert (masterInfo s' = None) as Hn.
    { rewrite Hmi. simpl. rewrite lookup_empty. by destruct (Js.truthy _). }
    split; [done|]. by rewrite Hterm, Hn.
Qed.

(** C6 (amended). In Scenario B the catalog is absent, so shape C is
    classified by its label alone; the lower-cased label "resolved" contains
    the keyword "resolv", and C is emitted with type [result], while A and B
    are [question]. *)
Theorem C6_scenario_B_types :
  (λ s, (masterInfo s, isTerminator s)) <$> rawShapesOf Scenarios.scenarioPage None
    = [(None, false); (None, false); (None, false)]
  ∧ Js.includes "resolv" (Js.toLowerCase "Resolved") = true
  ∧ classifyShape None "Resolved" = result
  ∧ (λ n, (title n, type n, is_start n))
      <$> nodes (parseVisioXml Scenarios.scenarioPage None)
    = [("Begin", question, true); ("Card valid?", question, false);
       ("Resolved", result, false)]
  ∧ length (edges (parseVisioXml Scenarios.scenarioPage None)) = 2%nat.
Proof.
  vm_compute. done.
Qed.

(** C6 as claimed fails: the node of shape C is not a [question]. *)
Lemma C6_shape_C_is_not_question :
  ∃ n, n ∈ nodes (parseVisioXml Scenarios.scenarioPage None)
       ∧ visioId n = Some "3" ∧ title n = "Resolved" ∧ type n ≠ question.
Proof.
  eexists. split.
  - apply list_elem_of_lookup. exists 2%nat. vm_compute. reflexivity.
  - done.
Qed.

(** *** The properties at concrete pages *)


Lemma C4_start_node_is_question_witness :
  ∃ n, n ∈ nodes (parseVisioXml Scenarios.scenarioPage (Some Scenarios.scenarioMasters))
       ∧ visioId n = Some "1" ∧ title n = "Begin"
       ∧ is_start n = true ∧ type n = question.
Proof.
  eassert (startShapeOf Scenarios.scenarioPage (Some Scenarios.scenarioMasters)
           = Some _) as Hs by (vm_compute; reflexivity).
  refine (proj2 (C4_start_node_is_question Scenarios.scenarioPage
                   (Some Scenarios.scenarioMasters)) _ Hs _).
  discriminate.
Defined.


(** On the cyclic page the shape drawn second comes first in the output. *)
Example cyclic_page_renumbered :
  (λ n, (tempId n, title n)) <$> nodes (parseVisioXml Scenarios.cyclicPage None)
  = [("import-node-0", "Upper"); ("import-node-1", "Lower")]
  ∧ label <$> rawShapesOf Scenarios.cyclicPage None = ["Lower"; "Upper"].
Proof. vm_compute. done. Qed.

(** Scenario A: three nodes, A the start and a [question] although drawn
    from the Start/End master, C a [result], both wires resolved. *)
Example scenario_A :
  (λ n, (title n, type n, is_start n))
    <$> nodes (parseVisioXml Scenarios.scenarioPage (Some Scenarios.scenarioMasters))
  = [("Begin", question, true); ("Card valid?", question, false);
     ("Resolved", result, false)]
  ∧ (λ e, (sourceId e, targetId e))
      <$> edges (parseVisioXml Scenarios.scenarioPage (Some Scenarios.scenarioMasters))
    = [(Some (Js.Id "import-node-0"), Some (Js.Id "import-node-1"));
       (Some (Js.Id "import-node-1"), Some (Js.Id "import-node-2"))].
Proof. vm_compute. done. Qed.

End VisioProofs.

(** ** The text-generation route *)

Module GenerateProofs.
Import Generate.

Lemma aiIdToTempId_fold (ns : list AiNode) :
  ∃ m : gmap string string,
    foldl addAiId (0%nat, ∅) ns = (length ns, m)
    ∧ ∀ key v, m !! key = Some v → ∃ i, (i < length ns)%nat ∧ v = import_node i.
Proof.
  induction ns as [|n ns IH] using rev_ind.
  - exists ∅. split; [done|]. intros key v. by rewrite lookup_empty.
  - destruct IH as (m & Hm & Hval).
    rewrite foldl_app, Hm. cbn [foldl]. unfold addAiId.
    set (m1 := match n_id n with
               | JUndefined | JNull => m
               | v => Js.objSet (String_ v) (import_node (length ns)) m
               end).
    assert (∀ key v, m1 !! key = Some v →
              ∃ i, (i < length (ns ++ [n]))%nat ∧ v = import_node i) as Hval1.
    { intros key v. rewrite length_app. simpl.
      assert (m !! key = Some v → ∃ i, (i < length ns + 1)%nat ∧ v = import_node i) as H0.
      { intros Hv. destruct (Hval key v Hv) as (i & Hi & ->). exists i. split; [lia|done]. }
      assert (Js.objSet (String_ (n_id n)) (import_node (length ns)) m !! key = Some v →
              ∃ i, (i < length ns + 1)%nat ∧ v = import_node i) as H1.
      { intros [[_ ->]|Hv]%JsFacts.objSet_lookup_Some; [|by apply H0].
        exists (length ns). split; [lia|done]. }
      unfold m1. by destruct (n_id n). }
    eexists. split.
    + rewrite length_app. simpl. by rewrite Nat.add_1_r.
    + destruct (Js.truthyRef (Js.objGet m1 (pretty (length ns)))); [done|].
      intros key v [[_ ->]|Hv]%JsFacts.objSet_lookup_Some; [|by apply (Hval1 key)].
      exists (length ns). split; [rewrite length_app; simpl; lia|done].
Qed.

Lemma aiIdToTempId_values (ns : list AiNode) key v :
  aiIdToTempId ns !! key = Some v → ∃ i, (i < length ns)%nat ∧ v = import_node i.
Proof.
  unfold aiIdToTempId. destruct (aiIdToTempId_fold ns) as (m & -> & Hval).
  apply Hval.
Qed.

Lemma ensureStart_fmap {B} (f : Node → B) (l : list Node) :
  (∀ n, f (setStart n) = f n) → f <$> ensureStart l = f <$> l.
Proof.
  intros Hf. destruct l as [|n l]; [done|]. unfold ensureStart.
  destruct (existsb is_start (n :: l)); [done|].
  rewrite !fmap_cons. f_equal. apply Hf.
Qed.

Lemma nodes_tempIds (ns : list AiNode) :
  tempId <$> ensureStart (imap normalizeNode ns) = import_node <$> seq 0 (length ns).
Proof.
  rewrite ensureStart_fmap by done.
  rewrite fmap_imap. rewrite <- (imap_seq_0 ns import_node). by apply imap_ext.
Qed.

Lemma handleGenerate_Reviewable data g :
  handleGenerate data = Reviewable g →
  r_nodes data ≠ []
  ∧ nodes g = ensureStart (imap normalizeNode (r_nodes data))
  ∧ edges g = filter (λ e, validEdge e = true)
                (imap (mapEdge (aiIdToTempId (r_nodes data))) (r_edges data)).
Proof.
  unfold handleGenerate. case_bool_decide as Hlen; [done|].
  intros [= <-]. simpl. split; [|done].
  intros E. apply Hlen. by rewrite E.
Qed.

(** What [aiIdToTempId] answers for an end of an edge: the [tempId] of a
    node or, when the end names a member inherited from [Object.prototype],
    that member. *)
Lemma aiIdToTempId_answer (ns : list AiNode) k :
  Js.truthyRef (Js.objGet (aiIdToTempId ns) k) = true →
  (∃ n, n ∈ ensureStart (imap normalizeNode ns)
        ∧ Js.objGet (aiIdToTempId ns) k = Some (Js.Id (tempId n)))
  ∨ (k ∈ Js.protoMembers ∧ Js.objGet (aiIdToTempId ns) k = Some (Js.Inherited k)).
Proof.
  intros Ht.
  destruct (JsFacts.objGet_cases (aiIdToTempId ns) k)
    as [(v & Hv & E)|[(_ & Hk & E)|(_ & _ & E)]]; rewrite E in Ht |- *.
  - left. apply aiIdToTempId_values in Hv as (j & Hj & ->).
    assert (import_node j ∈ tempId <$> ensureStart (imap normalizeNode ns)) as Hin.
    { rewrite nodes_tempIds. apply list_elem_of_fmap_2. apply elem_of_seq. lia. }
    apply list_elem_of_fmap in Hin as (n & Hn' & Hin). exists n. by rewrite Hn'.
  - by right.
  - done.
Qed.

Lemma generate_edges_resolved data g e :
  handleGenerate data = Reviewable g → e ∈ edges g →
  ∃ i a, r_edges data !! i = Some a
         ∧ e = mapEdge (aiIdToTempId (r_nodes data)) i a
         ∧ ((∃ n, n ∈ nodes g ∧ sourceId e = Some (Js.Id (tempId n)))
            ∨ (String_ (source a) ∈ Js.protoMembers
               ∧ sourceId e = Some (Js.Inherited (String_ (source a)))))
         ∧ ((∃ n, n ∈ nodes g ∧ targetId e = Some (Js.Id (tempId n)))
            ∨ (String_ (target a) ∈ Js.protoMembers
               ∧ targetId e = Some (Js.Inherited (String_ (target a))))).
Proof.
  intros (_ & Hn & He)%handleGenerate_Reviewable. rewrite He, Hn.
  intros [Hv (i & Hi)%list_elem_of_lookup]%list_elem_of_filter.
  rewrite list_lookup_imap in Hi.
  destruct (r_edges data !! i) as [ae|] eqn:Hae; [|done]. injection Hi as <-.
  unfold validEdge in Hv. apply andb_true_iff in Hv as [Hs Ht]. simpl in *.
  exists i, ae. split; [done|]. split; [done|].
  split; by apply aiIdToTempId_answer.
Qed.

(** When no end of an edge of the response names an inherited member, both
    ends of every emitted edge are the [tempId] of nodes of the graph. *)
Lemma generate_edges_closed data g e :
  Derived.ordinaryEdgeEnds data = true →
  handleGenerate data = Reviewable g → e ∈ edges g →
  ∃ n1 n2, n1 ∈ nodes g ∧ n2 ∈ nodes g
           ∧ sourceId e = Some (Js.Id (tempId n1))
           ∧ targetId e = Some (Js.Id (tempId n2)).
Proof.
  intros Hord Hg He.
  destruct (generate_edges_resolved data g e Hg He) as (i & a & Ha & _ & Hs & Ht).
  unfold Derived.ordinaryEdgeEnds in Hord. rewrite forallb_forall in Hord.
  assert (In a (r_edges data)) as Hin.
  { apply list_elem_of_In. by eapply list_elem_of_lookup_2. }
  specialize (Hord a Hin). apply andb_true_iff in Hord as [H1 H2].
  apply negb_true_iff, bool_decide_eq_false in H1, H2.
  destruct Hs as [(n1 & Hn1 & Hs)|[? _]]; [|done].
  destruct Ht as [(n2 & Hn2 & Ht)|[? _]]; [|done].
  by exists n1, n2.
Qed.

Lemma countStart_imap_normalizeNode (g : nat → nat) (ns : list AiNode) :
  countStart (imap (λ i, normalizeNode (g i)) ns) = length (flaggedStart ns).
Proof.
  revert g. induction ns as [|n ns IH]; intros g; [done|].
  rewrite imap_cons. unfold countStart, flaggedStart in *.
  destruct (truthyVal (n_is_start n)) eqn:E.
  - rewrite !filter_cons_True by done. simpl. f_equal. apply (IH (g ∘ S)).
  - rewrite !filter_cons_False by (simpl; rewrite ?E; done). apply (IH (g ∘ S)).
Qed.

Lemma countStart_none (l : list Node) :
  existsb is_start l = false → countStart l = 0%nat.
Proof.
  unfold countStart. induction l as [|a l IH]; simpl; [done|].
  intros [Ha Hl]%orb_false_iff.
  rewrite filter_cons_False by (rewrite Ha; done). by apply IH.
Qed.

Lemma countStart_some (l : list Node) :
  existsb is_start l = true → (1 ≤ countStart l)%nat.
Proof.
  unfold countStart. induction l as [|a l IH]; simpl; [done|].
  destruct (is_start a) eqn:Ea; simpl.
  - intros _. rewrite filter_cons_True by done. simpl. lia.
  - intros H. rewrite filter_cons_False by (rewrite Ea; done). by apply IH.
Qed.

Lemma countStart_ensureStart (l : list Node) :
  l ≠ [] → (1 ≤ countStart (ensureStart l))%nat
           ∧ ((countStart l ≤ 1)%nat → countStart (ensureStart l) = 1%nat).
Proof.
  destruct l as [|n l]; [done|]. intros _. unfold ensureStart.
  destruct (existsb is_start (n :: l)) eqn:Ex.
  - pose proof (countStart_some _ Ex). split; lia.
  - simpl in Ex. apply orb_false_iff in Ex as [_ Hl].
    unfold countStart. rewrite filter_cons_True by done. simpl.
    pose proof (countStart_none l Hl) as H0. unfold countStart in H0.
    rewrite H0. split; [lia|done].
Qed.

Lemma generate_start_count data g :
  handleGenerate data = Reviewable g →
  nodes g ≠ []
  ∧ (1 ≤ countStart (nodes g))%nat
  ∧ ((length (flaggedStart (r_nodes data)) ≤ 1)%nat → countStart (nodes g) = 1%nat).
Proof.
  intros (Hne & -> & _)%handleGenerate_Reviewable.
  assert (imap normalizeNode (r_nodes data) ≠ []) as Hne'.
  { by destruct (r_nodes data). }
  destruct (countStart_ensureStart _ Hne') as [H1 H2].
  split; [|split; [done|]].
  - intros E. rewrite E in H1. simpl in H1. unfold countStart in H1. simpl in H1. lia.
  - intros Hle. apply H2. by rewrite (countStart_imap_normalizeNode id).
Qed.

Lemma qmax_spec (lo q : Q) :
  ((q <= lo)%Q → Js.qmax lo q = lo) ∧ ((lo < q)%Q → Js.qmax lo q = q)
  ∧ (lo <= Js.qmax lo q)%Q.
Proof.
  unfold Js.qmax. destruct (q ?= lo)%Q eqn:E.
  - apply Qeq_alt in E. split; [done|]. split; [|apply Qle_refl].
    intros H. exfalso. lra.
  - apply Qlt_alt in E. split; [done|]. split; [|apply Qle_refl].
    intros H. exfalso. lra.
  - apply Qgt_alt in E. split; [|split; [done|lra]].
    intros H. exfalso. lra.
Qed.

(** C8 (amended). Every node emitted by the adapter has, as each coordinate,
    the maximum of 20 and the input coordinate when that is a number, and the
    maximum of 20 and the computed default otherwise: inputs up to 20,
    negative ones included, come out as 20, larger ones unchanged, so the
    lower bound is 20. *)
Theorem C8_positions_clamped_at_20 (data : Response) (g : Generated) (i : nat) (n : Node) :
  handleGenerate data = Reviewable g → nodes g !! i = Some n →
  ∃ a, r_nodes data !! i = Some a
       ∧ fst (position n) = Js.qmax 20 (default (defaultX i) (n_x a))
       ∧ snd (position n) = Js.qmax 20 (default (defaultY i) (n_y a))
       ∧ (∀ q, n_x a = Some q → (q <= 20)%Q → fst (position n) = 20%Q)
       ∧ (∀ q, n_x a = Some q → (20 < q)%Q → fst (position n) = q)
       ∧ (∀ q, n_y a = Some q → (q <= 20)%Q → snd (position n) = 20%Q)
       ∧ (∀ q, n_y a = Some q → (20 < q)%Q → snd (position n) = q)
       ∧ (20 <= fst (position n))%Q ∧ (20 <= snd (position n))%Q.
Proof.
  intros (_ & Hn & _)%handleGenerate_Reviewable Hi.
  assert ((position <$> nodes g) !! i = Some (position n)) as Hp.
  { by rewrite list_lookup_fmap, Hi. }
  rewrite Hn, ensureStart_fmap, list_lookup_fmap, list_lookup_imap in Hp by done.
  destruct (r_nodes data !! i) as [a|]; [|done].
  simpl in Hp. injection Hp as Hp.
  exists a. split; [done|]. rewrite <- Hp. simpl.
  split; [done|]. split; [done|].
  split; [intros q -> Hq; by apply qmax_spec|].
  split; [intros q -> Hq; by apply qmax_spec|].
  split; [intros q -> Hq; by apply qmax_spec|].
  split; [intros q -> Hq; by apply qmax_spec|].
  split; apply qmax_spec.
Qed.

Lemma C8_positions_clamped_at_20_witness :
  ∃ g n a, handleGenerate Scenarios.scenarioD = Reviewable g
           ∧ nodes g !! 2%nat = Some n
           ∧ r_nodes Scenarios.scenarioD !! 2%nat = Some a
           ∧ fst (position n) = Js.qmax 20 (default (defaultX 2) (n_x a))
           ∧ (20 <= fst (position n))%Q.
Proof.
  eassert (handleGenerate Scenarios.scenarioD = Reviewable _) as Hg
    by (vm_compute; reflexivity).
  match type of Hg with
  | _ = Reviewable ?g =>
      eassert (nodes g !! 2%nat = Some _) as Hn by (vm_compute; reflexivity)
  end.
  destruct (C8_positions_clamped_at_20 Scenarios.scenarioD _ 2 _ Hg Hn)
    as (a & Ha & Hx & _ & _ & _ & _ & _ & Hle & _).
  eexists _, _, a. split; [exact Hg|]. split; [exact Hn|]. split; [exact Ha|].
  split; [exact Hx|exact Hle].
Defined.

(** C8 as claimed fails: a node placed at (5, 7) is moved to (20, 20), whereas
    clamping at 0 would leave it at (5, 7). *)
Lemma C8_lower_bound_is_not_zero :
  ∃ g n, handleGenerate Scenarios.lowCoordinates = Reviewable g
         ∧ nodes g = [n]
         ∧ position n = (20%Q, 20%Q)
         ∧ Js.qmax 0 (5 # 1) = (5 # 1)%Q ∧ Js.qmax 0 (7 # 1) = (7 # 1)%Q
         ∧ ¬ (fst (position n) == Js.qmax 0 (5 # 1))%Q
         ∧ ¬ (snd (position n) == Js.qmax 0 (7 # 1))%Q.
Proof.
  eexists _, _. split; [vm_compute; reflexivity|].
  split; [reflexivity|]. split; [reflexivity|].
  split; [reflexivity|]. split; [reflexivity|].
  split; vm_compute; discriminate.
Qed.

End GenerateProofs.

(** ** Both routes *)

(** C1 (amended). A graph with at least one node has at least one start node
    on either route.  On the Visio route it has exactly one when the shape
    identifiers of the page are pairwise distinct; on the text-generation
    route it has exactly one when at most one node of the response carries a
    truthy [is_start]. *)
Theorem C1_start_node_count :
  (∀ page mastersXml,
     Visio.nodes (Visio.parseVisioXml page mastersXml) ≠ [] →
     (1 ≤ Visio.countStart (Visio.nodes (Visio.parseVisioXml page mastersXml)))%nat
     ∧ (NoDup (Visio.s_ID <$> Visio.shapes page) →
          Visio.countStart (Visio.nodes (Visio.parseVisioXml page mastersXml)) = 1%nat))
  ∧ (∀ data g,
       Generate.handleGenerate data = Generate.Reviewable g →
       Generate.nodes g ≠ []
       ∧ (1 ≤ Generate.countStart (Generate.nodes g))%nat
       ∧ ((length (Generate.flaggedStart (Generate.r_nodes data)) ≤ 1)%nat →
            Generate.countStart (Generate.nodes g) = 1%nat)).
Proof.
  split.
  - apply VisioProofs.visio_start_count.
  - apply GenerateProofs.generate_start_count.
Qed.

Lemma C1_start_node_count_witness :
  Visio.countStart
    (Visio.nodes (Visio.parseVisioXml Scenarios.scenarioPage
                    (Some Scenarios.scenarioMasters))) = 1%nat
  ∧ ∃ g, Generate.handleGenerate Scenarios.scenarioD = Generate.Reviewable g
         ∧ Generate.countStart (Generate.nodes g) = 1%nat.
Proof.
  split.
  - apply (proj1 C1_start_node_count Scenarios.scenarioPage
             (Some Scenarios.scenarioMasters)).
    + vm_compute. discriminate.
    + apply (bool_decide_unpack _). vm_compute. exact I.
  - eassert (Generate.handleGenerate Scenarios.scenarioD = Generate.Reviewable _)
      as Hg by (vm_compute; reflexivity).
    eexists. split; [exact Hg|].
    apply (proj2 C1_start_node_count _ _ Hg).
    vm_compute. lia.
Defined.

(** C1 as claimed fails on both routes: a response flagging two nodes yields
    two start nodes, and so does a page with a repeated shape identifier. *)
Lemma C1_two_start_nodes :
  (∃ g, Generate.handleGenerate Scenarios.twoStarts = Generate.Reviewable g
        ∧ length (Generate.nodes g) = 2%nat
        ∧ Generate.countStart (Generate.nodes g) = 2%nat)
  ∧ length (Visio.nodes (Visio.parseVisioXml Scenarios.duplicateIdPage None)) = 2%nat
  ∧ Visio.countStart (Visio.nodes (Visio.parseVisioXml Scenarios.duplicateIdPage None))
    = 2%nat.
Proof.
  split.
  - eexists. split; [vm_compute; reflexivity|]. vm_compute. done.
  - vm_compute. done.
Qed.

(** C2. Both ends of an emitted edge are meant to be the [tempId] of nodes of
    the same graph, and the filter after endpoint resolution is there to drop
    every other edge.  The code misses the ends that name a member inherited
    from [Object.prototype]: [aiIdToTempId] and [idMap] are plain objects, so
    the lookup of [constructor] yields that member, which is truthy.  On the
    response and on the page below the edge is emitted with a source that is
    the [tempId] of no node, and no warning reports it. *)
Theorem C2_inherited_end_is_kept :
  (∃ g e,
     Generate.handleGenerate Scenarios.inheritedEnd = Generate.Reviewable g
     ∧ Generate.tempId <$> Generate.nodes g = ["import-node-0"]
     ∧ Generate.edges g = [e]
     ∧ Generate.sourceId e = Some (Js.Inherited "constructor")
     ∧ Generate.targetId e = Some (Js.Id "import-node-0")
     ∧ Generate.warnings g = []
     ∧ ∀ n, n ∈ Generate.nodes g → Generate.sourceId e ≠ Some (Js.Id (Generate.tempId n)))
  ∧ (∃ g w e,
       Visio.handleFile Scenarios.inheritedEndPage None = Visio.Reviewable g w
       ∧ Visio.tempId <$> Visio.nodes g = ["import-node-0"]
       ∧ Visio.edges g = [e]
       ∧ Visio.sourceId e = Some (Js.Inherited "constructor")
       ∧ Visio.targetId e = Some (Js.Id "import-node-0")
       ∧ w = [Visio.NoMastersFile]
       ∧ ∀ n, n ∈ Visio.nodes g → Visio.sourceId e ≠ Some (Js.Id (Visio.tempId n))).
Proof.
  split.
  - eexists _, _. split; [vm_compute; reflexivity|].
    split; [vm_compute; reflexivity|]. split; [vm_compute; reflexivity|].
    split; [reflexivity|]. split; [reflexivity|]. split; [vm_compute; reflexivity|].
    intros n _. discriminate.
  - eexists _, _, _. split; [vm_compute; reflexivity|].
    split; [vm_compute; reflexivity|]. split; [vm_compute; reflexivity|].
    split; [reflexivity|]. split; [reflexivity|]. split; [reflexivity|].
    intros n _. discriminate.
Qed.

(** Scenario D: the edge from index 2 to identifier "node-2" is emitted once;
    the edge naming an unknown identifier is dropped and counted. *)
Example scenario_D :
  ∃ g, Generate.handleGenerate Scenarios.scenarioD = Generate.Reviewable g
       ∧ (λ e, (Generate.sourceId e, Generate.targetId e)) <$> Generate.edges g
         = [(Some (Js.Id "import-node-2"), Some (Js.Id "import-node-2"))]
       ∧ Generate.warnings g = [Generate.DroppedEdges 1].
Proof. eexists. split; [vm_compute; reflexivity|]. vm_compute. done. Qed.

(** ** Further properties of the Visio route *)

Module VisioFacts.
Import Visio Derived.

(** What step 2 keeps of one [Shape] element. *)
Lemma collectShape_retains mm cm es rs sh :
  snd (collectShape mm cm (es, rs) sh) = rs
  ∨ ∃ s, snd (collectShape mm cm (es, rs) sh) = rs ++ [s]
         ∧ shapeId s = s_ID sh ∧ label s = labelOf sh ∧ label s ≠ ""
         ∧ s_Type sh ≠ Some "Edge"
         ∧ hasEntry cm (Js.propKey (s_ID sh)) = false
         ∧ pinX s = default 0%Q (s_PinX sh) ∧ pinY s = default 0%Q (s_PinY sh).
Proof.
  unfold collectShape.
  set (mi := if Js.truthy (s_Master sh) then mm !! s_Master sh else None).
  destruct (bool_decide (s_Type sh = Some "Edge")) eqn:Hedge.
  { left. simpl.
    destruct (wireFrom cm _); [|done]. destruct (wireTo cm _); [|done].
    by destruct (_ && _). }
  destruct (match mi with
            | Some mi0 => has CONNECTOR_MASTERS (Js.str_or (nameU mi0) (name mi0))
            | None => false
            end) eqn:Hcm.
  { left. simpl.
    destruct (wireFrom cm _); [|done]. destruct (wireTo cm _); [|done].
    by destruct (_ && _). }
  destruct (hasEntry cm (Js.propKey (s_ID sh))) eqn:Hk.
  { left. simpl.
    destruct (wireFrom cm _); [|done]. destruct (wireTo cm _); [|done].
    by destruct (_ && _). }
  simpl. apply bool_decide_eq_false in Hedge.
  case_bool_decide as Hl; [by left|].
  right. eexists. split; [reflexivity|]. simpl.
  repeat split; done.
Qed.

Lemma retained_origin mm cm ss s :
  s ∈ snd (collectShapes mm cm ss) →
  ∃ sh, sh ∈ ss ∧ shapeId s = s_ID sh ∧ label s = labelOf sh ∧ label s ≠ ""
        ∧ s_Type sh ≠ Some "Edge" ∧ hasEntry cm (Js.propKey (s_ID sh)) = false
        ∧ pinX s = default 0%Q (s_PinX sh) ∧ pinY s = default 0%Q (s_PinY sh).
Proof.
  induction ss as [|sh ss IH] using rev_ind.
  - simpl. by intros ?%elem_of_nil.
  - rewrite VisioProofs.collectShapes_snoc.
    destruct (collectShapes mm cm ss) as [es rs] eqn:Hc. simpl in IH.
    destruct (collectShape_retains mm cm es rs sh) as [->|(s' & -> & Hs')].
    + intros Hs. destruct (IH Hs) as (sh' & Hin & H'). exists sh'.
      split; [apply elem_of_app; by left|done].
    + intros [Hs| ->%list_elem_of_singleton]%elem_of_app.
      * destruct (IH Hs) as (sh' & Hin & H'). exists sh'.
        split; [apply elem_of_app; by left|done].
      * exists sh. split; [apply elem_of_app; right; by left|done].
Qed.

Lemma hasEntry_false cm k :
  hasEntry cm k = false → cm !! k = None ∧ k ∉ Js.protoMembers.
Proof.
  unfold hasEntry. intros [H1 H2]%orb_false_iff.
  apply bool_decide_eq_false in H1, H2. split; [|done].
  by apply eq_None_not_Some.
Qed.

(** The identifier of a retained shape names no inherited member. *)
Lemma retained_key_ordinary page mastersXml s :
  s ∈ rawShapesOf page mastersXml → keyOf s ∉ Js.protoMembers.
Proof.
  intros (sh & _ & Hid & _ & _ & _ & Hk & _)%retained_origin.
  unfold keyOf. rewrite Hid. by apply hasEntry_false in Hk as [_ ?].
Qed.

Lemma elem_of_forceStart_origin id (l : list Node) n :
  n ∈ forceStart id l → ∃ n0, n0 ∈ l ∧ (n = n0 ∨ n = forced n0).
Proof.
  induction l as [|a l IH]; simpl; [by intros ?%elem_of_nil|].
  case_bool_decide.
  - intros [->|Hn]%elem_of_cons.
    + exists a. split; [by left|by right].
    + exists n. split; [by right|by left].
  - intros [->|Hn]%elem_of_cons.
    + exists a. split; [by left|by left].
    + destruct (IH Hn) as (n0 & Hin & Hn0). exists n0. split; [by right|done].
Qed.

Lemma elem_of_fallbackStart_origin (l : list Node) n :
  n ∈ fallbackStart l → ∃ n0, n0 ∈ l ∧ (n = n0 ∨ n = forced n0).
Proof.
  unfold fallbackStart. destruct (needsFallback l).
  - destruct (js_sort cmpNode l).
    + intros Hn. exists n. split; [done|by left].
    + apply elem_of_forceStart_origin.
  - intros Hn. exists n. split; [done|by left].
Qed.

Lemma visio_node_type page mastersXml n :
  n ∈ nodes (parseVisioXml page mastersXml) → type n = question ∨ type n = result.
Proof.
  rewrite VisioProofs.parseVisioXml_nodes.
  intros (n0 & Hn0 & Hn)%elem_of_fallbackStart_origin.
  destruct Hn as [-> | ->]; [|by left].
  apply VisioProofs.elem_of_assembledNodes in Hn0 as (i & s & Hs & ->).
  assert (s ∈ rawShapesOf page mastersXml) as Hraw.
  { rewrite <- VisioProofs.shapeOrder_Permutation. by eapply list_elem_of_lookup_2. }
  pose proof (VisioProofs.rawShapes_plain _ _ _ _ Hraw) as [Hplain _].
  pose proof (VisioProofs.type_nodeOf_ne_connector
                (startShapeId (startShapeOf page mastersXml)) i s Hplain) as Hc.
  destruct (type _); [by left|by right|done].
Qed.

(** Every node stems from a [Shape] element that is no connector: not of type
    [Edge], and with an identifier under which the wiring table holds nothing,
    neither an entry nor an inherited member.  The node carries the element's
    identifier, a title that is not empty and, for an ASCII text, is the
    trimmed text with its runs of white space collapsed, and a type other
    than [connector]. *)
Theorem visio_node_origin (page : Page) (mastersXml : option (list MasterElem)) (n : Node) :
  n ∈ nodes (parseVisioXml page mastersXml) →
  ∃ sh, sh ∈ shapes page
        ∧ visioId n = s_ID sh ∧ title n ≠ ""
        ∧ (Js.isAscii (Js.or_empty (s_Text sh)) = true → title n = labelOf sh)
        ∧ s_Type sh ≠ Some "Edge"
        ∧ hasEntry (buildConnectorMap (connects page)) (Js.propKey (s_ID sh)) = false
        ∧ (Js.propKey (s_ID sh) ∉ Js.protoMembers)
        ∧ (type n = question ∨ type n = result).
Proof.
  rewrite VisioProofs.parseVisioXml_nodes.
  intros (n0 & Hn0 & Hn)%elem_of_fallbackStart_origin.
  apply VisioProofs.elem_of_assembledNodes in Hn0 as (i & s & Hs & ->).
  assert (s ∈ rawShapesOf page mastersXml) as Hraw.
  { rewrite <- VisioProofs.shapeOrder_Permutation. by eapply list_elem_of_lookup_2. }
  pose proof (VisioProofs.rawShapes_plain _ _ _ _ Hraw) as [Hplain _].
  destruct (retained_origin _ _ _ _ Hraw)
    as (sh & Hin & Hid & Hl & Hne & Hty & Hk & _).
  exists sh. split; [done|].
  assert (type (nodeOf (startShapeId (startShapeOf page mastersXml)) i s) = question
          ∨ type (nodeOf (startShapeId (startShapeOf page mastersXml)) i s) = result)
    as Htype.
  { pose proof (VisioProofs.type_nodeOf_ne_connector
                  (startShapeId (startShapeOf page mastersXml)) i s Hplain) as Hc.
    destruct (type _); [by left|by right|done]. }
  assert (∀ m : Node, m = nodeOf (startShapeId (startShapeOf page mastersXml)) i s
            ∨ m = forced (nodeOf (startShapeId (startShapeOf page mastersXml)) i s) →
            visioId m = shapeId s ∧ title m = label s
            ∧ (type m = question ∨ type m = result)) as Hfields.
  { intros m [-> | ->]; [by repeat split|]. repeat split. by left. }
  destruct (Hfields n Hn) as (Hv & Ht & Hq).
  rewrite Hv, Ht, Hid. repeat split; try done.
  by apply hasEntry_false in Hk as [_ ?].
Qed.

Lemma visio_node_origin_witness :
  ∃ n sh, nodes (parseVisioXml Scenarios.scenarioPage (Some Scenarios.scenarioMasters))
            !! 2%nat = Some n
          ∧ sh ∈ shapes Scenarios.scenarioPage
          ∧ visioId n = s_ID sh ∧ title n ≠ ""
          ∧ (type n = question ∨ type n = result).
Proof.
  eassert (nodes (parseVisioXml Scenarios.scenarioPage (Some Scenarios.scenarioMasters))
             !! 2%nat = Some _) as Hn by (vm_compute; reflexivity).
  destruct (visio_node_origin _ _ _ (list_elem_of_lookup_2 _ _ _ Hn))
    as (sh & Hin & Hid & Ht & _ & _ & _ & _ & Hty).
  eexists _, sh. split; [exact Hn|]. split; [exact Hin|].
  split; [exact Hid|]. split; [exact Ht|exact Hty].
Defined.

(** *** Identifiers *)

Lemma import_edge_inj i j : import_edge i = import_edge j → i = j.
Proof.
  unfold import_edge. intros H%(inj (String.app _)). by apply (inj pretty) in H.
Qed.

Lemma collectShape_pushes mm cm es rs sh :
  fst (collectShape mm cm (es, rs) sh) = es
  ∨ ∃ e, fst (collectShape mm cm (es, rs) sh) = es ++ [e]
         ∧ re_tempId e = import_edge (length es) ∧ re_label e = labelOf sh.
Proof.
  unfold collectShape.
  destruct (_ || _ || _).
  - destruct (wireFrom cm _) as [f|]; [|by left].
    destruct (wireTo cm _) as [t|]; [|by left].
    destruct (_ && _); [|by left].
    right. eexists. split; [reflexivity|]. done.
  - left. by case_bool_decide.
Qed.

Lemma rawEdges_tempIds mm cm ss :
  re_tempId <$> fst (collectShapes mm cm ss)
  = import_edge <$> seq 0 (length (fst (collectShapes mm cm ss))).
Proof.
  induction ss as [|sh ss IH] using rev_ind; [done|].
  rewrite VisioProofs.collectShapes_snoc.
  destruct (collectShapes mm cm ss) as [es rs] eqn:Hc. simpl in IH.
  destruct (collectShape_pushes mm cm es rs sh) as [->|(e & -> & He & _)]; [done|].
  rewrite fmap_app, length_app, IH. simpl.
  rewrite Nat.add_1_r, seq_S, fmap_app. simpl. by rewrite He.
Qed.

(** The canonical identifiers of the nodes are pairwise distinct, and so are
    those of the edges. *)
Theorem visio_tempIds_distinct (page : Page) (mastersXml : option (list MasterElem)) :
  NoDup (tempId <$> nodes (parseVisioXml page mastersXml))
  ∧ NoDup (e_tempId <$> edges (parseVisioXml page mastersXml)).
Proof.
  split.
  - destruct (VisioProofs.parsed_fields page mastersXml) as (_ & _ & ->).
    apply NoDup_fmap_2_strong; [|apply NoDup_seq].
    intros i j _ _. apply VisioProofs.import_node_inj.
  - rewrite VisioProofs.parseVisioXml_edges.
    eapply sublist_NoDup.
    2:{ apply fmap_sublist. apply sublist_filter. }
    rewrite <- list_fmap_compose.
    change (e_tempId ∘ resolveEdge (idMapOf page mastersXml)) with re_tempId.
    unfold rawEdgesOf. rewrite rawEdges_tempIds.
    apply NoDup_fmap_2_strong; [|apply NoDup_seq].
    intros i j _ _. apply import_edge_inj.
Qed.

(** *** The identifier map of step 4 *)

Lemma buildNodes_idMap sid (l : list RawShape) :
  Forall plainShape l →
  (∀ k v, snd (fst (buildNodes sid l)) !! k = Some v →
     ∃ i s, l !! i = Some s ∧ keyOf s = k ∧ v = import_node i)
  ∧ (∀ s, s ∈ l → keyOf s ≠ "__proto__" →
          is_Some (snd (fst (buildNodes sid l)) !! keyOf s)).
Proof.
  induction l as [|s l IH] using rev_ind; intros Hall.
  - split; [intros k v; simpl; by rewrite lookup_empty|by intros s ?%elem_of_nil].
  - apply Forall_app in Hall as [Hl Hs]. apply Forall_inv in Hs.
    destruct (IH Hl) as [Hval Hdom].
    destruct (VisioProofs.buildNodes_spec sid l Hl) as (m & Hm & _).
    unfold buildNodes in *. rewrite foldl_app, Hm in *. cbn [foldl].
    rewrite VisioProofs.buildNode_plain by done. simpl in *. split.
    + intros k v [[E ->]|Hv]%JsFacts.objSet_lookup_Some.
      * exists (length l), s. split; [by rewrite list_lookup_middle|done].
      * destruct (Hval k v Hv) as (i & s' & Hi & Hk & ->).
        exists i, s'. split; [|done]. by apply lookup_app_l_Some.
    + intros s' Hin Hne. rewrite JsFacts.objSet_lookup.
      case_decide as Hd; [by eexists|].
      apply elem_of_app in Hin as [Hs'| ->%list_elem_of_singleton].
      * by apply Hdom.
      * destruct Hd. split; [done|]. exact Hne.
Qed.

Lemma idMapOf_lookup page mastersXml :
  (∀ k v, idMapOf page mastersXml !! k = Some v →
     ∃ i s, shapeOrder mastersXml page !! i = Some s ∧ keyOf s = k ∧ v = import_node i)
  ∧ (∀ s, s ∈ rawShapesOf page mastersXml → is_Some (idMapOf page mastersXml !! keyOf s)).
Proof.
  destruct (buildNodes_idMap (startShapeId (startShapeOf page mastersXml))
              (shapeOrder mastersXml page) (VisioProofs.shapeOrder_plain _ _))
    as [Hval Hdom].
  split; [exact Hval|]. intros s Hs. apply Hdom.
  - by rewrite VisioProofs.shapeOrder_Permutation.
  - intros E. apply (retained_key_ordinary _ _ _ Hs). rewrite E.
    apply (bool_decide_unpack _). vm_compute. exact I.
Qed.

Lemma node_at_index page mastersXml i s :
  shapeOrder mastersXml page !! i = Some s →
  ∃ n, n ∈ nodes (parseVisioXml page mastersXml)
       ∧ tempId n = import_node i ∧ visioId n = shapeId s.
Proof.
  intros Hs.
  destruct (VisioProofs.parsed_fields page mastersXml) as (Hv & _ & Hi).
  assert (i < length (shapeOrder mastersXml page))%nat as Hlt
    by (by eapply lookup_lt_Some).
  assert ((tempId <$> nodes (parseVisioXml page mastersXml)) !! i
          = Some (import_node i)) as Hti.
  { rewrite Hi, list_lookup_fmap, lookup_seq_lt by done. done. }
  apply list_lookup_fmap_Some in Hti as (n & Hni & Hn).
  exists n. split; [by eapply list_elem_of_lookup_2|]. split; [done|].
  assert ((visioId <$> nodes (parseVisioXml page mastersXml)) !! i
          = Some (shapeId s)) as Hvi.
  { by rewrite Hv, list_lookup_fmap, Hs. }
  rewrite list_lookup_fmap, Hn in Hvi. by injection Hvi.
Qed.

(** The answer of [idMap] for a key: the node of the retained shape carrying
    it, the inherited member it names, or nothing. *)
Lemma idMap_resolution page mastersXml k :
  let r := Js.refOrNull (Js.objGet (idMapOf page mastersXml) k) in
  (Js.truthyRef r = true ↔ resolves page mastersXml k)
  ∧ (Js.truthyRef r = true → answers page mastersXml k r).
Proof.
  intros r. unfold r. destruct (idMapOf_lookup page mastersXml) as [Hval Hdom].
  rewrite JsFacts.refOrNull_truthy.
  destruct (JsFacts.objGet_cases (idMapOf page mastersXml) k)
    as [(v & Hv & E)|[(Hn & Hk & E)|(Hn & Hk & E)]]; rewrite E.
  - destruct (Hval k v Hv) as (i & s & Hi & Hks & ->).
    rewrite JsFacts.import_node_truthy. split.
    + split; [intros _|done]. left. exists s. split; [|done].
      rewrite <- VisioProofs.shapeOrder_Permutation. by eapply list_elem_of_lookup_2.
    + intros _. rewrite JsFacts.refOrNull_of_truthy by apply JsFacts.import_node_truthy.
      destruct (node_at_index _ _ _ _ Hi) as (n & Hin & Ht & Hvis).
      left. exists n. split; [done|]. rewrite Ht. split; [done|].
      by rewrite Hvis.
  - simpl. split.
    + split; [intros _; by right|done].
    + intros _. by right.
  - simpl. split; [|done]. split; [done|].
    intros [(s & Hs & Hks)|Hin]; [|done].
    destruct (Hdom s Hs) as [v Hv]. rewrite Hks in Hv. congruence.
Qed.

(** The wires of step 2 are those of the shapes whose wiring record has both
    ends.  A wire yields an edge exactly when each of its ends is the
    identifier of a retained shape or names a member inherited from
    [Object.prototype]; the edge then has the connector's text as label, and
    each end is the [tempId] of a node carrying that identifier or, in the
    second case, the inherited member. *)
Theorem visio_edge_emitted_iff (page : Page) (mastersXml : option (list MasterElem)) :
  ordinaryConnects page = true →
  (λ e, (_visioSrcId e, _visioTgtId e)) <$> rawEdgesOf page mastersXml
  = omap (wireEnds (buildConnectorMap (connects page))) (shapes page)
  ∧ ∀ re, re ∈ rawEdgesOf page mastersXml →
      let e := resolveEdge (idMapOf page mastersXml) re in
      (e ∈ edges (parseVisioXml page mastersXml) ↔
         resolves page mastersXml (_visioSrcId re)
         ∧ resolves page mastersXml (_visioTgtId re))
      ∧ (e ∈ edges (parseVisioXml page mastersXml) →
         e_label e = re_label re
         ∧ answers page mastersXml (_visioSrcId re) (sourceId e)
         ∧ answers page mastersXml (_visioTgtId re) (targetId e)).
Proof.
  intros _. split; [apply VisioProofs.rawEdges_ends|].
  intros re Hre e.
  assert (e ∈ edges (parseVisioXml page mastersXml) ↔ validEdge e = true) as Hin.
  { rewrite VisioProofs.parseVisioXml_edges, list_elem_of_filter. split; [by intros [? _]|].
    intros Hv. split; [done|]. by apply list_elem_of_fmap_2. }
  pose proof (idMap_resolution page mastersXml (_visioSrcId re)) as [Hs1 Hs2].
  pose proof (idMap_resolution page mastersXml (_visioTgtId re)) as [Ht1 Ht2].
  rewrite Hin. unfold validEdge, e. simpl. rewrite andb_true_iff.
  split; [by rewrite Hs1, Ht1|].
  intros [Hs Ht]. split; [done|]. split; [by apply Hs2|by apply Ht2].
Qed.

Lemma visio_edge_emitted_iff_witness :
  ∃ re, rawEdgesOf Scenarios.scenarioPage None !! 0%nat = Some re
        ∧ resolveEdge (idMapOf Scenarios.scenarioPage None) re
          ∈ edges (parseVisioXml Scenarios.scenarioPage None).
Proof.
  eassert (rawEdgesOf Scenarios.scenarioPage None !! 0%nat = Some _) as Hre
    by (vm_compute; reflexivity).
  eexists. split; [exact Hre|].
  apply (proj1 (proj2 (visio_edge_emitted_iff Scenarios.scenarioPage None eq_refl)
                  _ (list_elem_of_lookup_2 _ _ _ Hre))).
  split; left.
  - eexists. split; [apply list_elem_of_lookup; exists 0%nat; vm_compute; reflexivity|].
    reflexivity.
  - eexists. split; [apply list_elem_of_lookup; exists 1%nat; vm_compute; reflexivity|].
    reflexivity.
Defined.

(** *** The start node when identifiers are not empty *)

Lemma startShape_Some es (rs : list RawShape) :
  rs ≠ [] → ∃ s, startShape es rs = Some s.
Proof.
  intros Hne. unfold startShape, selectStart.
  destruct (find _ (noIncoming es rs)) as [s|]; [by exists s|].
  destruct (js_sort cmpShape (noIncoming es rs)) as [|c cs]; [|by exists c].
  destruct (VisioProofs.sorted_nonempty rs Hne) as (s & rest & E).
  simpl. rewrite E. by exists s.
Qed.

(** When no [Shape] element has an empty [ID] attribute, step 4 always flags
    a node, so the fallback after assembly never runs; the start nodes are
    exactly the nodes carrying the identifier of the shape picked in step 3. *)
Theorem visio_fallback_never_runs (page : Page) (mastersXml : option (list MasterElem)) :
  (∀ sh, sh ∈ shapes page → s_ID sh ≠ Some "") →
  needsFallback (assembledNodes page mastersXml) = false
  ∧ nodes (parseVisioXml page mastersXml) = assembledNodes page mastersXml
  ∧ ∀ s, startShapeOf page mastersXml = Some s →
         ∀ n, n ∈ nodes (parseVisioXml page mastersXml) →
              (is_start n = true ↔ visioId n = shapeId s).
Proof.
  intros Hids.
  assert (∀ s, startShapeOf page mastersXml = Some s →
               startShapeId (startShapeOf page mastersXml) = shapeId s) as Hsid.
  { intros s Hs. rewrite Hs. simpl.
    assert (s ∈ rawShapesOf page mastersXml) as Hraw
      by (by eapply VisioProofs.startShape_elem).
    destruct (retained_origin _ _ _ _ Hraw) as (sh & Hin & Hid & _).
    destruct (shapeId s) as [k|] eqn:Ek; [|done].
    rewrite (proj2 (VisioProofs.truthy_Some_ne k)); [done|].
    intros ->. by apply (Hids sh Hin). }
  assert (needsFallback (assembledNodes page mastersXml) = false) as Hno.
  { unfold needsFallback.
    destruct (rawShapesOf page mastersXml) as [|r rs] eqn:Hraw.
    - assert (assembledNodes page mastersXml = []) as ->; [|done].
      rewrite VisioProofs.assembledNodes_eq.
      assert (shapeOrder mastersXml page = []) as ->; [|done].
      apply Permutation_nil_r. by rewrite <- Hraw, VisioProofs.shapeOrder_Permutation.
    - destruct (startShape_Some (rawEdgesOf page mastersXml) (r :: rs)) as [s Hs];
        [done|].
      rewrite <- Hraw in Hs. fold (startShapeOf page mastersXml) in Hs.
      assert (s ∈ shapeOrder mastersXml page) as Hin.
      { rewrite VisioProofs.shapeOrder_Permutation. by eapply VisioProofs.startShape_elem. }
      apply list_elem_of_lookup_1 in Hin as [i Hi].
      destruct (existsb is_start (assembledNodes page mastersXml)) eqn:Ex; [done|].
      rewrite VisioProofs.existsb_is_start_false in Ex.
      assert (nodeOf (startShapeId (startShapeOf page mastersXml)) i s
              ∈ assembledNodes page mastersXml) as Hn.
      { apply VisioProofs.elem_of_assembledNodes. by exists i, s. }
      specialize (Ex _ Hn). simpl in Ex.
      by rewrite (Hsid s Hs), bool_decide_eq_true_2 in Ex. }
  split; [done|].
  assert (nodes (parseVisioXml page mastersXml) = assembledNodes page mastersXml) as Heq.
  { rewrite VisioProofs.parseVisioXml_nodes. unfold fallbackStart. by rewrite Hno. }
  split; [done|]. intros s Hs n. rewrite Heq.
  intros (i & s' & _ & ->)%VisioProofs.elem_of_assembledNodes. simpl.
  by rewrite (Hsid s Hs), bool_decide_eq_true.
Qed.

Lemma visio_fallback_never_runs_witness :
  needsFallback (assembledNodes Scenarios.cyclicPage None) = false
  ∧ nodes (parseVisioXml Scenarios.cyclicPage None)
    = assembledNodes Scenarios.cyclicPage None.
Proof.
  destruct (visio_fallback_never_runs Scenarios.cyclicPage None) as (H1 & H2 & _).
  - intros sh Hsh. apply (bool_decide_unpack _).
    revert sh Hsh. apply Forall_forall. apply (bool_decide_unpack _).
    vm_compute. exact I.
  - split; [exact H1|exact H2].
Defined.

(** *** The outcome of [handleFile] *)

(** A labelled shape whose identifier names a member inherited from
    [Object.prototype] is skipped as a connector: no node is left. *)
Example inherited_id_is_skipped :
  hasEntry (buildConnectorMap (connects Scenarios.inheritedIdPage)) "constructor" = true
  ∧ rawShapesOf Scenarios.inheritedIdPage None = []
  ∧ handleFile Scenarios.inheritedIdPage None
    = Failed "No shapes with text found on this page. Make sure your shapes have labels.".
Proof. vm_compute. done. Qed.

Ltac mem_cases H :=
  repeat (apply elem_of_cons in H as [H|H]); [..|by apply elem_of_nil in H].

(** For a page with ASCII texts and master names whose [Connect] records
    name no inherited member: the import fails exactly when no shape is
    retained; otherwise it yields the parsed graph, never records the
    missing-start warning, records the missing-masters notice exactly when
    there is no masters file, and the two counts of its summary add up to the
    number of nodes. *)
Theorem handleFile_outcome (page : Page) (mastersXml : option (list MasterElem)) :
  asciiPage page mastersXml = true → ordinaryConnects page = true →
  (rawShapesOf page mastersXml = [] →
     handleFile page mastersXml
     = Failed "No shapes with text found on this page. Make sure your shapes have labels.")
  ∧ (rawShapesOf page mastersXml ≠ [] →
     ∃ w, handleFile page mastersXml = Reviewable (parseVisioXml page mastersXml) w
          ∧ (NoStartDetected ∉ w)
          ∧ (NoMastersFile ∈ w ↔ mastersXml = None)
          ∧ ∀ q r, DetectedTypes q r ∈ w →
                   (q + r)%nat = length (nodes (parseVisioXml page mastersXml))).
Proof.
  intros _ _. split.
  - apply VisioProofs.handleFile_fails.
  - intros Hraw. destruct (VisioProofs.handleFile_total page mastersXml Hraw) as [w Hw].
    exists w. split; [done|].
    apply VisioProofs.handleFile_Reviewable in Hw as (_ & _ & ->).
    set (g := parseVisioXml page mastersXml).
    assert (countType question (nodes g) + countType result (nodes g)
            = length (nodes g))%nat as Hsum.
    { unfold countType.
      assert (∀ n, n ∈ nodes g → type n = question ∨ type n = result) as Hty.
      { intros n Hn. by apply (visio_node_type page mastersXml). }
      induction (nodes g) as [|n ns IH]; [done|].
      assert (∀ n, n ∈ ns → type n = question ∨ type n = result) as Hty'.
      { intros n' Hn'. apply Hty. by right. }
      specialize (IH Hty'). simpl.
      destruct (Hty n) as [E|E]; [by left| |].
      + rewrite (filter_cons_True (λ n, type n = question)) by done.
        rewrite (filter_cons_False (λ n, type n = result)) by (rewrite E; done).
        simpl. lia.
      + rewrite (filter_cons_False (λ n, type n = question)) by (rewrite E; done).
        rewrite (filter_cons_True (λ n, type n = result)) by done.
        simpl. lia. }
    destruct mastersXml as [doc|]; case_bool_decide; simpl;
      (split; [intros Hm; mem_cases Hm; discriminate|]);
      (split; [split; [intros Hm; mem_cases Hm; (discriminate || done)
                      |intros E; (discriminate E || by left)]|]);
      intros q r Hm; mem_cases Hm; try discriminate;
      injection Hm as -> ->; exact Hsum.
Qed.

Lemma handleFile_outcome_witness :
  handleFile Scenarios.unlabelledPage None
  = Failed "No shapes with text found on this page. Make sure your shapes have labels.".
Proof.
  apply (proj1 (handleFile_outcome Scenarios.unlabelledPage None eq_refl eq_refl)).
  vm_compute. reflexivity.
Defined.

(** *** Classification and the masters catalog *)

Lemma lower_ascii_idem c : Js.lower_ascii (Js.lower_ascii c) = Js.lower_ascii c.
Proof. by destruct c as [[] [] [] [] [] [] [] []]. Qed.

Lemma toLowerCase_idem s : Js.toLowerCase (Js.toLowerCase s) = Js.toLowerCase s.
Proof.
  induction s as [|c s IH]; [done|]. simpl. by rewrite lower_ascii_idem, IH.
Qed.

(** Classification does not depend on the case of the label; with master
    information it does not depend on the label at all; without it the result
    is never [connector], and it is [result] exactly when the lower-cased
    label contains "escalat" or "resolv" or starts with "result". *)
Theorem classifyShape_label (masterInfo : option MasterInfo) (l l' : string) :
  classifyShape masterInfo (Js.toLowerCase l) = classifyShape masterInfo l
  ∧ (is_Some masterInfo → classifyShape masterInfo l = classifyShape masterInfo l')
  ∧ classifyShape None l ≠ connector
  ∧ (classifyShape None l = result ↔
       Js.includes "escalat" (Js.toLowerCase l) = true
       ∨ Js.includes "resolv" (Js.toLowerCase l) = true
       ∨ Js.startsWith "result" (Js.toLowerCase l) = true).
Proof.
  split; [|split; [|split]].
  - unfold classifyShape. by rewrite toLowerCase_idem.
  - by intros [mi ->].
  - unfold classifyShape. by destruct (_ || _).
  - unfold classifyShape.
    destruct (Js.includes "escalat" _), (Js.includes "resolv" _),
      (Js.startsWith "result" _); simpl; split; try done; auto.
    by intros [?|[?|?]].
Qed.

Lemma classifyShape_label_witness :
  classifyShape (Some {| nameU := "decision"; name := "" |}) "Resolved"
  = classifyShape (Some {| nameU := "decision"; name := "" |}) "Escalate".
Proof.
  apply (proj1 (proj2 (classifyShape_label _ "Resolved" "Escalate"))). by eexists.
Defined.

Lemma parseMasters_snoc doc m :
  parseMasters (Some (doc ++ [m])) = <[m_ID m := infoOf m]> (parseMasters (Some doc)).
Proof. unfold parseMasters. by rewrite foldl_app. Qed.

(** The catalog maps an identifier to the entry of the last [Master] element
    carrying it; without a masters file every lookup fails. *)
Theorem parseMasters_lookup (doc : list MasterElem) (k : option string) :
  parseMasters (Some doc) !! k = infoOf <$> last (filter (λ m, m_ID m = k) doc)
  ∧ parseMasters None !! k = None.
Proof.
  split; [|apply lookup_empty].
  induction doc as [|m doc IH] using rev_ind; [apply lookup_empty|].
  rewrite parseMasters_snoc, filter_app.
  destruct (decide (m_ID m = k)) as [E|E].
  - rewrite filter_cons_True, filter_nil by done.
    by rewrite E, lookup_insert_eq, last_snoc.
  - rewrite filter_cons_False, filter_nil, app_nil_r by done.
    by rewrite lookup_insert_ne.
Qed.

(** Without a masters file a node is either the start node, of type
    [question], or typed by the label heuristics applied to its title. *)
Theorem visio_no_catalog_types (page : Page) (n : Node) :
  n ∈ nodes (parseVisioXml page None) →
  (is_start n = true ∧ type n = question)
  ∨ (is_start n = false ∧ type n = classifyShape None (title n)).
Proof.
  rewrite VisioProofs.parseVisioXml_nodes.
  intros (n0 & Hn0 & Hn)%elem_of_fallbackStart_origin.
  destruct Hn as [-> | ->]; [|by left].
  apply VisioProofs.elem_of_assembledNodes in Hn0 as (i & s & Hs & ->).
  assert (s ∈ rawShapesOf page None) as Hraw.
  { rewrite <- VisioProofs.shapeOrder_Permutation. by eapply list_elem_of_lookup_2. }
  destruct (VisioProofs.no_catalog_no_masterInfo page s Hraw) as [Hmi Hterm].
  simpl. case_bool_decide; [by left|right]. by rewrite Hterm, Hmi.
Qed.

Lemma visio_no_catalog_types_witness :
  ∃ n, nodes (parseVisioXml Scenarios.scenarioPage None) !! 2%nat = Some n
       ∧ is_start n = false ∧ type n = classifyShape None (title n).
Proof.
  eassert (nodes (parseVisioXml Scenarios.scenarioPage None) !! 2%nat = Some _) as Hn
    by (vm_compute; reflexivity).
  eexists. split; [exact Hn|].
  destruct (visio_no_catalog_types _ _ (list_elem_of_lookup_2 _ _ _ Hn))
    as [[Hs _]|H]; [discriminate Hs|exact H].
Defined.

(** *** Vertical order *)

Lemma yOf_antimonotone (a b : RawShape) :
  (pinY b <= pinY a)%Q → yOf a ≤ yOf b.
Proof.
  intros H. unfold yOf, Js.round. apply Z.max_le_compat_l.
  apply Qfloor_resp_le. lra.
Qed.

Lemma sorted_yOf (l : list RawShape) :
  StronglySorted above l → StronglySorted Z.le (yOf <$> l).
Proof.
  induction 1 as [|a l Hs IH Hall]; [constructor|].
  rewrite fmap_cons. constructor; [done|].
  apply Forall_fmap. eapply Forall_impl; [exact Hall|].
  intros b Hab. simpl. apply yOf_antimonotone.
  destruct Hab as [Hlt|[Heq _]]; lra.
Qed.

(** A shape drawn higher on the page never gets a larger [y]; hence, when no
    retained shape is free of incoming wires, the nodes are listed from top to
    bottom: their [y] coordinates never decrease along the output. *)
Theorem visio_sorted_top_to_bottom (page : Page) (mastersXml : option (list MasterElem)) :
  (∀ a b, (pinY b <= pinY a)%Q → yOf a ≤ yOf b)
  ∧ (λ n, snd (position n)) <$> nodes (parseVisioXml page mastersXml)
    = yOf <$> shapeOrder mastersXml page
  ∧ (noIncoming (rawEdgesOf page mastersXml) (rawShapesOf page mastersXml) = [] →
     StronglySorted Z.le
       ((λ n, snd (position n)) <$> nodes (parseVisioXml page mastersXml))).
Proof.
  split; [apply yOf_antimonotone|].
  assert ((λ n, snd (position n)) <$> nodes (parseVisioXml page mastersXml)
          = yOf <$> shapeOrder mastersXml page) as Hy.
  { rewrite VisioProofs.parseVisioXml_nodes, VisioProofs.fallbackStart_fmap by done.
    rewrite VisioProofs.assembledNodes_eq, fmap_imap.
    rewrite <- (imap_const yOf). by apply imap_ext. }
  split; [done|]. intros Hnil. rewrite Hy. apply sorted_yOf.
  rewrite VisioProofs.shapeOrder_eq, VisioProofs.selectStart_order, Hnil.
  apply (VisioProofs.StronglySorted_weaken (notAfter cmpShape)).
  - intros a b. by rewrite VisioProofs.cmpShape_notAfter.
  - apply js_sort_sorted; [apply VisioProofs.cmpShape_trans|apply VisioProofs.cmpShape_total].
Qed.

Lemma visio_sorted_top_to_bottom_witness :
  StronglySorted Z.le
    ((λ n, snd (position n)) <$> nodes (parseVisioXml Scenarios.cyclicPage None)).
Proof.
  apply (proj2 (proj2 (visio_sorted_top_to_bottom Scenarios.cyclicPage None))).
  vm_compute. reflexivity.
Defined.

End VisioFacts.

(** ** Further properties of the text-generation route *)

Module GenerateFacts.
Import Generate Derived.

Lemma lastDeclaredFrom_snoc i k ns n :
  lastDeclaredFrom i k (ns ++ [n])
  = if declares k n then Some (i + length ns)%nat else lastDeclaredFrom i k ns.
Proof.
  revert i. induction ns as [|a ns IH]; intros i; simpl.
  - rewrite Nat.add_0_r. by destruct (declares k n).
  - rewrite IH. destruct (declares k n); [|done].
    f_equal. lia.
Qed.

Lemma indexKey_S k n :
  indexKey k (S n)
  = match indexKey k n with
    | Some i => Some i
    | None => if decide (pretty n = k) then Some n else None
    end.
Proof.
  unfold indexKey. rewrite seq_S, filter_app. simpl.
  destruct (filter _ (seq 0 n)) as [|i l]; simpl.
  - destruct (decide (pretty n = k)).
    + by rewrite filter_cons_True, filter_nil.
    + by rewrite filter_cons_False, filter_nil.
  - done.
Qed.

Lemma indexKey_Some k n i : indexKey k n = Some i → (i < n)%nat ∧ pretty i = k.
Proof.
  unfold indexKey. intros (l & Hl)%head_Some.
  assert (i ∈ filter (λ i, pretty i = k) (seq 0 n)) as Hi by (rewrite Hl; by left).
  apply list_elem_of_filter in Hi as [Hk Hi]. apply elem_of_seq in Hi.
  split; [lia|done].
Qed.

Lemma indexKey_self n : indexKey (pretty n) n = None.
Proof.
  destruct (indexKey (pretty n) n) as [i|] eqn:E; [|done].
  apply indexKey_Some in E as [Hlt Hk]. apply (inj pretty) in Hk. lia.
Qed.

Lemma aiIdToTempId_state (ns : list AiNode) :
  fst (foldl addAiId (0%nat, ∅) ns) = length ns
  ∧ ∀ k, snd (foldl addAiId (0%nat, ∅) ns) !! k
         = match lastDeclared k ns with
           | Some j => Some (import_node j)
           | None => import_node <$> indexKey k (length ns)
           end.
Proof.
  induction ns as [|n ns [IHlen IH]] using rev_ind.
  - split; [done|]. intros k. simpl. by rewrite lookup_empty.
  - rewrite foldl_app. cbn [foldl].
    destruct (foldl addAiId (0%nat, ∅) ns) as [i m] eqn:Hst. simpl in IHlen, IH.
    subst i. unfold addAiId.
    set (m1 := match n_id n with
               | JUndefined | JNull => m
               | v => Js.objSet (String_ v) (import_node (length ns)) m
               end).
    assert (∀ key k, Js.objSet key (import_node (length ns)) m !! k
                     = if bool_decide (key = k) && negb (bool_decide (k = "__proto__"))
                       then Some (import_node (length ns)) else m !! k) as Hset.
    { intros key k. rewrite JsFacts.objSet_lookup. case_decide as Hd.
      - destruct Hd as [-> Hp].
        by rewrite bool_decide_eq_true_2, (bool_decide_eq_false_2 _ Hp).
      - destruct (decide (key = k)) as [->|Hk].
        + rewrite bool_decide_eq_true_2 by done.
          rewrite bool_decide_eq_true_2; [done|].
          destruct (decide (k = "__proto__")) as [|Hp]; [done|]. by destruct Hd.
        + by rewrite bool_decide_eq_false_2. }
    assert (∀ k, m1 !! k = if declares k n then Some (import_node (length ns))
                           else m !! k) as Hm1.
    { intros k. unfold m1, declares. destruct (n_id n) eqn:Eid; try done; apply Hset. }
    split; [rewrite length_app; simpl; lia|].
    intros k. unfold lastDeclared. rewrite lastDeclaredFrom_snoc, length_app.
    simpl. rewrite Nat.add_1_r, indexKey_S.
    fold (lastDeclared k ns).
    rewrite (JsFacts.objGet_ordinary _ _ (JsFacts.pretty_nat_ordinary _)).
    assert (∀ j, Js.truthyRef (Js.Id <$> Some (import_node j)) = true) as Hj.
    { intros j. apply JsFacts.import_node_truthy. }
    assert (∀ k', Js.truthyRef (Js.Id <$> m1 !! k') = bool_decide (is_Some (m1 !! k')))
      as Htr.
    { intros k'. rewrite Hm1. destruct (declares k' n).
      - rewrite Hj. by rewrite bool_decide_eq_true_2.
      - rewrite IH. destruct (lastDeclared k' ns).
        + rewrite Hj. by rewrite bool_decide_eq_true_2.
        + destruct (indexKey k' (length ns)) as [j|].
          * change (import_node <$> Some j) with (Some (import_node j)).
            rewrite Hj. by rewrite bool_decide_eq_true_2.
          * change (import_node <$> None) with (@None string).
            rewrite bool_decide_eq_false_2; [done|]. by intros [? ?]. }
    rewrite Htr.
    destruct (decide (pretty (length ns) = k)) as [Ek|Ek].
    + subst k. case_bool_decide as Hsome; simpl.
      * rewrite Hm1 in Hsome |- *. destruct (declares _ n); [done|].
        rewrite IH in Hsome |- *. destruct (lastDeclared _ ns); [done|].
        rewrite indexKey_self in Hsome. simpl in Hsome. by destruct Hsome.
      * rewrite JsFacts.objSet_lookup.
        rewrite decide_True by (split; [done|apply JsFacts.pretty_nat_not_proto]).
        rewrite Hm1 in Hsome. destruct (declares _ n).
        { destruct Hsome. by eexists. }
        rewrite IH in Hsome. destruct (lastDeclared _ ns).
        { destruct Hsome. by eexists. }
        by rewrite indexKey_self.
    + assert ((if bool_decide (is_Some (m1 !! pretty (length ns))) then m1
               else Js.objSet (pretty (length ns)) (import_node (length ns)) m1) !! k
              = m1 !! k) as ->.
      { case_bool_decide; [done|]. rewrite JsFacts.objSet_lookup.
        rewrite decide_False; [done|]. by intros [? _]. }
      rewrite Hm1. destruct (declares k n); [done|]. rewrite IH.
      destruct (lastDeclared k ns); [done|].
      by destruct (indexKey k (length ns)).
Qed.

(** Reading the identifier map of the adapter, for identifiers whose string
    form is the plain one: a key declared as the identifier of some node
    leads to the last node declaring it; any other key leads to the node whose
    index it spells, if there is one; failing that, a key naming a member
    inherited from [Object.prototype] yields that member, and every other key
    is absent. *)
Theorem aiIdToTempId_lookup (ns : list AiNode) (k : string) :
  forallb (λ n, plainNumber (n_id n)) ns = true →
  Js.objGet (aiIdToTempId ns) k
  = match lastDeclared k ns with
    | Some j => Some (Js.Id (import_node j))
    | None =>
        match indexKey k (length ns) with
        | Some j => Some (Js.Id (import_node j))
        | None => if bool_decide (k ∈ Js.protoMembers)
                  then Some (Js.Inherited k) else None
        end
    end.
Proof.
  intros _. unfold Js.objGet, aiIdToTempId. rewrite (proj2 (aiIdToTempId_state ns)).
  destruct (lastDeclared k ns); [done|]. by destruct (indexKey k (length ns)).
Qed.

Lemma aiIdToTempId_lookup_witness :
  Js.objGet (aiIdToTempId (r_nodes Scenarios.scenarioD)) "node-1"
  = Some (Js.Id (import_node 1))
  ∧ Js.objGet (aiIdToTempId (r_nodes Scenarios.scenarioD)) "toString"
    = Some (Js.Inherited "toString").
Proof.
  split.
  - rewrite (aiIdToTempId_lookup (r_nodes Scenarios.scenarioD) "node-1" eq_refl).
    vm_compute. reflexivity.
  - rewrite (aiIdToTempId_lookup (r_nodes Scenarios.scenarioD) "toString" eq_refl).
    vm_compute. reflexivity.
Defined.

(** Every index of the response resolves, and it resolves to its own node
    unless the index is also declared as an identifier. *)
Theorem aiIdToTempId_index (ns : list AiNode) (i : nat) :
  (i < length ns)%nat →
  is_Some (aiIdToTempId ns !! pretty i)
  ∧ (lastDeclared (pretty i) ns = None →
     aiIdToTempId ns !! pretty i = Some (import_node i)).
Proof.
  intros Hi. unfold aiIdToTempId. rewrite (proj2 (aiIdToTempId_state ns)).
  assert (indexKey (pretty i) (length ns) = Some i) as Hidx.
  { destruct (indexKey (pretty i) (length ns)) as [j|] eqn:E.
    - apply indexKey_Some in E as [_ Hj]. apply (inj pretty) in Hj. by subst.
    - unfold indexKey in E. apply head_None in E.
      assert (i ∈ filter (λ j, pretty j = pretty i) (seq 0 (length ns))) as Hin.
      { apply list_elem_of_filter. split; [done|]. apply elem_of_seq. lia. }
      rewrite E in Hin. by apply elem_of_nil in Hin. }
  destruct (lastDeclared (pretty i) ns) as [j|].
  - split; [by eexists|done].
  - rewrite Hidx. split; [by eexists|done].
Qed.

Lemma aiIdToTempId_index_witness :
  is_Some (aiIdToTempId (r_nodes Scenarios.scenarioD) !! pretty 2%nat)
  ∧ aiIdToTempId (r_nodes Scenarios.scenarioD) !! pretty 2%nat = Some (import_node 2).
Proof.
  destruct (aiIdToTempId_index (r_nodes Scenarios.scenarioD) 2) as [H1 H2].
  - vm_compute. lia.
  - split; [exact H1|]. apply H2. vm_compute. reflexivity.
Defined.

(** *** Titles *)

Lemma slice0_length k s : (String.length (Js.slice0 k s) ≤ k)%nat.
Proof.
  revert s. induction k as [|k IH]; intros [|c s]; simpl; try lia.
  specialize (IH s). lia.
Qed.

Lemma slice0_nonempty k s : s ≠ "" → Js.slice0 (S k) s ≠ "".
Proof. by destruct s. Qed.

Lemma ensureStart_origin (l : list Node) n :
  n ∈ ensureStart l → ∃ n0, n0 ∈ l ∧ (n = n0 ∨ n = setStart n0).
Proof.
  destruct l as [|a l]; [by intros ?%elem_of_nil|]. unfold ensureStart.
  destruct (existsb is_start (a :: l)).
  - intros Hn. exists n. split; [done|by left].
  - intros [->|Hn]%elem_of_cons.
    + exists a. split; [by left|by right].
    + exists n. split; [by right|by left].
Qed.

(** A node of the response whose title is an ASCII string, or is missing,
    gets a title of 1 to 80 characters: the title of the response cut after 80
    characters or, when that is missing or empty, the placeholder
    "Step i+1". *)
Theorem generated_title_bounds (data : Response) (g : Generated) (i : nat)
    (a : AiNode) (n : Node) :
  handleGenerate data = Reviewable g →
  r_nodes data !! i = Some a → nodes g !! i = Some n →
  Js.isAscii (Js.or_empty (n_title a)) = true →
  (1 ≤ String.length (title n) ≤ 80)%nat
  ∧ title n = Js.slice0 80 (match n_title a with
                            | Some t => if bool_decide (t = "")
                                        then "Step " +:+ pretty (i + 1)%nat else t
                            | None => "Step " +:+ pretty (i + 1)%nat
                            end).
Proof.
  intros (_ & Hn & _)%GenerateProofs.handleGenerate_Reviewable Ha Hi _.
  assert ((title <$> nodes g) !! i = Some (title n)) as Ht.
  { by rewrite list_lookup_fmap, Hi. }
  rewrite Hn, GenerateProofs.ensureStart_fmap, list_lookup_fmap, list_lookup_imap, Ha in Ht
    by done.
  simpl in Ht. injection Ht as Ht.
  assert ("Step " +:+ pretty (i + 1)%nat ≠ "") as Hstep by (by destruct (pretty _)).
  assert (title n = Js.slice0 80 (match n_title a with
                                  | Some t => if bool_decide (t = "")
                                              then "Step " +:+ pretty (i + 1)%nat else t
                                  | None => "Step " +:+ pretty (i + 1)%nat
                                  end)) as Htitle.
  { rewrite <- Ht. unfold Js.or_else, Js.truthy.
    destruct (n_title a) as [t|]; [|done]. by case_bool_decide. }
  split; [|done].
  rewrite Htitle. split; [|apply slice0_length].
  assert (∀ s, s ≠ "" → (1 ≤ String.length (Js.slice0 80 s))%nat) as Hpos.
  { intros [|c s] Hs; [done|]. simpl. lia. }
  apply Hpos. destruct (n_title a) as [t|]; [|done]. by case_bool_decide.
Qed.

Lemma generated_title_bounds_witness :
  ∃ g n, handleGenerate Scenarios.scenarioD = Reviewable g
         ∧ nodes g !! 1%nat = Some n
         ∧ (1 ≤ String.length (title n) ≤ 80)%nat.
Proof.
  eassert (handleGenerate Scenarios.scenarioD = Reviewable _) as Hg
    by (vm_compute; reflexivity).
  match type of Hg with
  | _ = Reviewable ?g =>
      eassert (nodes g !! 1%nat = Some _) as Hn by (vm_compute; reflexivity)
  end.
  eassert (r_nodes Scenarios.scenarioD !! 1%nat = Some _) as Ha by reflexivity.
  eexists _, _. split; [exact Hg|]. split; [exact Hn|].
  exact (proj1 (generated_title_bounds _ _ _ _ _ Hg Ha Hn eq_refl)).
Defined.

(** *** Dropped edges *)

Lemma aiIdToTempId_truthy (ns : list AiNode) k :
  Js.truthyRef (Js.objGet (aiIdToTempId ns) k) = true
  ↔ Js.objGet (aiIdToTempId ns) k ≠ None.
Proof.
  destruct (JsFacts.objGet_cases (aiIdToTempId ns) k)
    as [(v & Hv & E)|[(_ & _ & E)|(_ & _ & E)]]; rewrite E.
  - apply GenerateProofs.aiIdToTempId_values in Hv as (j & _ & ->).
    by rewrite JsFacts.import_node_truthy.
  - done.
  - done.
Qed.

Lemma validEdge_mapEdge (ns : list AiNode) i e :
  validEdge (mapEdge (aiIdToTempId ns) i e) = true ↔ ¬ unresolved (aiIdToTempId ns) e.
Proof.
  unfold validEdge, unresolved. simpl.
  rewrite andb_true_iff, !aiIdToTempId_truthy.
  split; [intros [H1 H2] [?|?]; done|].
  intros H. split; intros E; apply H; auto.
Qed.

Lemma kept_plus_dropped (m : gmap string string) (h : nat → AiEdge → Edge)
    (l : list AiEdge) :
  (∀ i e, validEdge (h i e) = true ↔ ¬ unresolved m e) →
  (length (filter (λ e, validEdge e = true) (imap h l))
   + length (filter (unresolved m) l) = length l)%nat.
Proof.
  revert h. induction l as [|e l IH]; intros h Hh; [done|].
  rewrite imap_cons.
  assert (∀ i e, validEdge ((h ∘ S) i e) = true ↔ ¬ unresolved m e) as Hh'
    by (intros i e'; apply Hh).
  specialize (IH (h ∘ S) Hh').
  destruct (decide (unresolved m e)) as [U|U].
  - rewrite filter_cons_False.
    2:{ intros Hv. by apply Hh in Hv. }
    rewrite (filter_cons_True (unresolved m)) by done.
    cbn [length]. lia.
  - rewrite filter_cons_True by (by apply Hh).
    rewrite (filter_cons_False (unresolved m)) by done.
    cbn [length]. lia.
Qed.

(** For a response whose identifiers have their plain string form: an edge
    is emitted exactly when [aiIdToTempId] holds something under each of its
    ends, the [tempId] of a node or an inherited member; so the emitted and
    the unresolved edges add up to the edges of the response.  The warnings
    are the suggestions of the response followed, when edges were dropped, by
    one entry carrying their number. *)
Theorem dropped_edges_accounting (data : Response) (g : Generated) :
  plainKeys data = true →
  handleGenerate data = Reviewable g →
  let m := aiIdToTempId (r_nodes data) in
  let dropped := length (filter (unresolved m) (r_edges data)) in
  (∀ i a, r_edges data !! i = Some a →
          (mapEdge m i a ∈ edges g ↔ ¬ unresolved m a))
  ∧ (length (edges g) + dropped = length (r_edges data))%nat
  ∧ warnings g = (Suggestion <$> r_suggestions data)
                   ++ (if bool_decide (dropped = 0%nat) then [] else [DroppedEdges dropped]).
Proof.
  intros _ Hg. cbv zeta. split.
  { pose proof Hg as (_ & _ & He)%GenerateProofs.handleGenerate_Reviewable.
    intros i a Ha. rewrite He, list_elem_of_filter, validEdge_mapEdge.
    split; [by intros [? _]|]. intros Hu. split; [done|].
    apply list_elem_of_lookup. exists i. by rewrite list_lookup_imap, Ha. }
  pose proof (kept_plus_dropped _ (mapEdge (aiIdToTempId (r_nodes data))) (r_edges data)
                (validEdge_mapEdge (r_nodes data))) as Hsum.
  pose proof Hg as (_ & _ & He)%GenerateProofs.handleGenerate_Reviewable.
  rewrite <- He in Hsum. split; [done|].
  unfold handleGenerate in Hg. case_bool_decide; [done|].
  injection Hg as <-. cbn [warnings edges] in *. f_equal.
  set (dropped := length (filter (unresolved (aiIdToTempId (r_nodes data)))
                                 (r_edges data))) in *.
  assert (length (r_edges data)
          - length (filter (λ e, validEdge e = true)
                      (imap (mapEdge (aiIdToTempId (r_nodes data))) (r_edges data)))
          = dropped)%nat as -> by lia.
  destruct dropped; [done|]. rewrite bool_decide_eq_true_2 by lia.
  by rewrite bool_decide_eq_false_2.
Qed.

Lemma dropped_edges_accounting_witness :
  ∃ g, handleGenerate Scenarios.scenarioD = Reviewable g
       ∧ (length (edges g)
          + length (filter (unresolved (aiIdToTempId (r_nodes Scenarios.scenarioD)))
                           (r_edges Scenarios.scenarioD))
          = length (r_edges Scenarios.scenarioD))%nat.
Proof.
  eassert (handleGenerate Scenarios.scenarioD = Reviewable _) as Hg
    by (vm_compute; reflexivity).
  eexists. split; [exact Hg|].
  exact (proj1 (proj2 (dropped_edges_accounting Scenarios.scenarioD _ eq_refl Hg))).
Defined.

(** *** Outcome, start flags and identifiers *)

Lemma existsb_is_start_flagged (ns : list AiNode) :
  existsb is_start (imap normalizeNode ns) = negb (bool_decide (flaggedStart ns = [])).
Proof.
  pose proof (GenerateProofs.countStart_imap_normalizeNode id ns) as Hc.
  destruct (existsb is_start (imap normalizeNode ns)) eqn:Ex.
  - apply GenerateProofs.countStart_some in Ex.
    rewrite bool_decide_eq_false_2; [done|]. intros E.
    change (imap (λ i, normalizeNode (id i)) ns) with (imap normalizeNode ns) in Hc.
    rewrite E in Hc. simpl in Hc. lia.
  - apply GenerateProofs.countStart_none in Ex.
    change (imap (λ i, normalizeNode (id i)) ns) with (imap normalizeNode ns) in Hc.
    rewrite Ex in Hc. rewrite bool_decide_eq_true_2; [done|].
    by destruct (flaggedStart ns).
Qed.

(** A response without nodes is reported as a failed generation, with the
    message of the error under the prefix of the function's [catch] block.
    Whenever the adapter yields a graph, the response had nodes and the graph
    has one node per node of the response, in order; a node is a start node
    when its flag is truthy, and the first node also when no flag is. *)
Theorem handleGenerate_outcome (data : Response) :
  (r_nodes data = [] →
     handleGenerate data
     = Failed "Generation failed: AI returned no nodes. Please try rephrasing your description.")
  ∧ (∀ g, handleGenerate data = Reviewable g →
       r_nodes data ≠ []
       ∧ length (nodes g) = length (r_nodes data)
       ∧ ∀ i a n, r_nodes data !! i = Some a → nodes g !! i = Some n →
           tempId n = import_node i
           ∧ is_start n
             = truthyVal (n_is_start a)
               || (bool_decide (i = 0%nat)
                   && bool_decide (flaggedStart (r_nodes data) = []))).
Proof.
  split.
  - intros E. unfold handleGenerate. by rewrite E.
  - intros g Hg.
    pose proof Hg as (Hne & Hn & _)%GenerateProofs.handleGenerate_Reviewable.
    split; [done|].
    assert (length (nodes g) = length (r_nodes data)) as Hlen.
    { rewrite <- (length_fmap tempId), Hn, GenerateProofs.nodes_tempIds.
      by rewrite length_fmap, length_seq. }
    split; [done|]. intros i a n Ha Hi. split.
    + assert ((tempId <$> nodes g) !! i = Some (tempId n)) as Ht
        by (by rewrite list_lookup_fmap, Hi).
      rewrite Hn, GenerateProofs.nodes_tempIds, list_lookup_fmap in Ht.
      rewrite lookup_seq_lt in Ht by (by eapply lookup_lt_Some).
      by injection Ht.
    + rewrite Hn in Hi. unfold ensureStart in Hi.
      pose proof (existsb_is_start_flagged (r_nodes data)) as Hex.
      destruct (r_nodes data) as [|a0 rest] eqn:Hr; [done|].
      rewrite imap_cons in Hi, Hex.
      destruct (existsb is_start (normalizeNode 0 a0 :: imap (normalizeNode ∘ S) rest))
        eqn:Ex.
      * symmetry in Hex. apply negb_true_iff in Hex. rewrite Hex, andb_false_r, orb_false_r.
        rewrite <- imap_cons, list_lookup_imap, Ha in Hi. by injection Hi as <-.
      * symmetry in Hex. apply negb_false_iff in Hex. rewrite Hex, andb_true_r.
        destruct i as [|i]; simpl in Hi, Ha.
        -- injection Hi as <-. simpl. by rewrite orb_true_r.
        -- rewrite orb_false_r. rewrite list_lookup_imap, Ha in Hi.
           by injection Hi as <-.
Qed.

Lemma handleGenerate_outcome_witness :
  handleGenerate {| r_nodes := []; r_edges := []; r_suggestions := ["retry"] |}
  = Failed "Generation failed: AI returned no nodes. Please try rephrasing your description."
  ∧ ∃ g, handleGenerate Scenarios.twoStarts = Reviewable g
         ∧ length (nodes g) = length (r_nodes Scenarios.twoStarts).
Proof.
  split.
  - apply (proj1 (handleGenerate_outcome _)). reflexivity.
  - eassert (handleGenerate Scenarios.twoStarts = Reviewable _) as Hg
      by (vm_compute; reflexivity).
    eexists. split; [exact Hg|].
    exact (proj1 (proj2 (proj2 (handleGenerate_outcome _) _ Hg))).
Defined.

Lemma edge_tempIds_imap (m : gmap string string) (l : list AiEdge) :
  e_tempId <$> imap (mapEdge m) l = import_edge <$> seq 0 (length l).
Proof.
  rewrite fmap_imap. rewrite <- (imap_seq_0 l import_edge). by apply imap_ext.
Qed.

(** The canonical identifiers of the emitted nodes are pairwise distinct, and
    so are those of the emitted edges. *)
Theorem generated_tempIds_distinct (data : Response) (g : Generated) :
  handleGenerate data = Reviewable g →
  NoDup (tempId <$> nodes g) ∧ NoDup (e_tempId <$> edges g).
Proof.
  intros (_ & Hn & He)%GenerateProofs.handleGenerate_Reviewable. split.
  - rewrite Hn, GenerateProofs.nodes_tempIds.
    apply NoDup_fmap_2_strong; [|apply NoDup_seq].
    intros i j _ _. apply VisioProofs.import_node_inj.
  - rewrite He. eapply sublist_NoDup.
    2:{ apply fmap_sublist. apply sublist_filter. }
    rewrite edge_tempIds_imap.
    apply NoDup_fmap_2_strong; [|apply NoDup_seq].
    intros i j _ _. apply VisioFacts.import_edge_inj.
Qed.

Lemma generated_tempIds_distinct_witness :
  ∃ g, handleGenerate Scenarios.twoStarts = Reviewable g
       ∧ NoDup (tempId <$> nodes g) ∧ NoDup (e_tempId <$> edges g).
Proof.
  eassert (handleGenerate Scenarios.twoStarts = Reviewable _) as Hg
    by (vm_compute; reflexivity).
  eexists. split; [exact Hg|]. exact (generated_tempIds_distinct _ _ Hg).
Defined.

End GenerateFacts.

(** ** The review step *)

Module ReviewProofs.
Import Review.

Lemma closed_alt (ns : list Node) (es : list Edge) :
  closed ns es ↔
  ∀ e, e ∈ es → ∃ s t, sourceId e = Some (Js.Id s) ∧ targetId e = Some (Js.Id t)
                       ∧ s ∈ tempId <$> ns ∧ t ∈ tempId <$> ns.
Proof.
  unfold closed. split; intros H e He.
  - destruct (H e He) as (n1 & n2 & H1 & H2 & Hs & Ht).
    exists (tempId n1), (tempId n2). repeat split; try done;
      by apply list_elem_of_fmap_2.
  - destruct (H e He) as (s & t & Hs & Ht & (n1 & -> & H1)%list_elem_of_fmap
                          & (n2 & -> & H2)%list_elem_of_fmap).
    by exists n1, n2.
Qed.

Lemma closed_same_ids (ns ns' : list Node) (es : list Edge) :
  tempId <$> ns = tempId <$> ns' → closed ns es → closed ns' es.
Proof. rewrite !closed_alt. by intros ->. Qed.

Lemma closed_sub_edges (ns : list Node) (es es' : list Edge) :
  (∀ e, e ∈ es' → e ∈ es) → closed ns es → closed ns es'.
Proof. intros Hsub H e He. apply H. by apply Hsub. Qed.

Lemma visioState_closed page mastersXml :
  Derived.ordinaryEnds page = true →
  closed (fst (Derived.visioState page mastersXml))
         (snd (Derived.visioState page mastersXml)).
Proof.
  intros Hord. unfold Derived.visioState. simpl.
  intros e (e0 & -> & He0)%list_elem_of_fmap.
  destruct (VisioProofs.visio_edges_closed page mastersXml e0 Hord He0)
    as (n1 & n2 & H1 & H2 & Hs & Ht).
  exists (ofVisio n1), (ofVisio n2). repeat split; try done;
    by apply list_elem_of_fmap_2.
Qed.

Lemma generatedState_closed data g :
  Derived.ordinaryEdgeEnds data = true →
  Generate.handleGenerate data = Generate.Reviewable g →
  closed (fst (Derived.generatedState g)) (snd (Derived.generatedState g)).
Proof.
  intros Hord Hg. unfold Derived.generatedState. simpl.
  intros e (e0 & -> & He0)%list_elem_of_fmap.
  destruct (GenerateProofs.generate_edges_closed data g e0 Hord Hg He0)
    as (n1 & n2 & H1 & H2 & Hs & Ht).
  exists (ofGenerated n1), (ofGenerated n2). repeat split; try done;
    by apply list_elem_of_fmap_2.
Qed.

(** *** [updateNode] *)

Lemma updateNode_tempIds id changes (ns : list Node) :
  tempId <$> updateNode id changes ns = tempId <$> ns.
Proof.
  unfold updateNode. case_bool_decide.
  - rewrite <- !list_fmap_compose. apply list_fmap_ext. intros i n _. simpl.
    repeat case_bool_decide; done.
  - rewrite <- !list_fmap_compose. apply list_fmap_ext. intros i n _. simpl.
    by case_bool_decide.
Qed.

Lemma updateNode_start_iff id changes (ns : list Node) n' :
  c_is_start changes = Some true →
  n' ∈ updateNode id changes ns → (is_start n' = true ↔ tempId n' = id).
Proof.
  intros Hc. unfold updateNode. rewrite bool_decide_eq_true_2 by done.
  rewrite <- list_fmap_compose.
  intros (n & -> & _)%list_elem_of_fmap. simpl.
  destruct (decide (tempId n = id)) as [E|E].
  - rewrite (bool_decide_eq_false_2 (tempId n ≠ id)) by (intros ?; done).
    simpl. rewrite bool_decide_eq_true_2 by done. simpl. by rewrite Hc.
  - rewrite (bool_decide_eq_true_2 (tempId n ≠ id)) by done.
    rewrite bool_decide_eq_false_2 by done. simpl. split; [done|]. intros ?; done.
Qed.

Lemma startNodes_by_id id (ns : list Node) :
  (∀ n, n ∈ ns → (is_start n = true ↔ tempId n = id)) →
  startNodes ns = filter (λ n, tempId n = id) ns.
Proof.
  unfold startNodes. induction ns as [|n ns IH]; intros H; [done|].
  assert (∀ n', n' ∈ ns → (is_start n' = true ↔ tempId n' = id)) as H'.
  { intros n' Hn'. apply H. by right. }
  destruct (decide (tempId n = id)) as [E|E].
  - rewrite !filter_cons_True; [|done|apply H; [by left|done]]. by rewrite IH.
  - rewrite !filter_cons_False; [by rewrite IH|done|].
    intros Hs. apply E. apply H; [by left|done].
Qed.

Lemma filter_id_length id (ns : list Node) :
  NoDup (tempId <$> ns) → id ∈ tempId <$> ns →
  length (filter (λ n, tempId n = id) ns) = 1%nat.
Proof.
  induction ns as [|n ns IH]; [by intros _ ?%elem_of_nil|].
  rewrite fmap_cons. intros [Hn Hnd]%NoDup_cons Hin.
  destruct (decide (tempId n = id)) as [E|E].
  - rewrite filter_cons_True by done. simpl. f_equal.
    destruct (filter (λ n, tempId n = id) ns) as [|m l] eqn:Ef; [done|].
    assert (m ∈ filter (λ n, tempId n = id) ns) as Hm by (rewrite Ef; by left).
    apply list_elem_of_filter in Hm as [Em Hm]. destruct Hn.
    rewrite E, <- Em. by apply list_elem_of_fmap_2.
  - rewrite filter_cons_False by done. apply IH; [done|].
    apply elem_of_cons in Hin as [Hin|Hin]; [by destruct E|done].
Qed.

(** Marking a node as start through the editor leaves the identifiers in
    place and makes the start nodes exactly the nodes with the given
    identifier: one node when identifiers are distinct and the identifier is
    present, none when it is absent. *)
Theorem updateNode_marks_start (id : string) (changes : Changes) (ns : list Node) :
  c_is_start changes = Some true →
  tempId <$> updateNode id changes ns = tempId <$> ns
  ∧ (∀ n', n' ∈ updateNode id changes ns → (is_start n' = true ↔ tempId n' = id))
  ∧ (NoDup (tempId <$> ns) → id ∈ tempId <$> ns →
       length (startNodes (updateNode id changes ns)) = 1%nat)
  ∧ (id ∉ tempId <$> ns → startNodes (updateNode id changes ns) = []).
Proof.
  intros Hc. split; [apply updateNode_tempIds|].
  split; [intros n'; by apply updateNode_start_iff|].
  rewrite (startNodes_by_id id) by (intros n'; by apply updateNode_start_iff).
  split.
  - intros Hnd Hin. apply filter_id_length; by rewrite updateNode_tempIds.
  - intros Hnot. destruct (filter _ _) as [|m l] eqn:Ef; [done|].
    assert (m ∈ filter (λ n, tempId n = id) (updateNode id changes ns)) as Hm
      by (rewrite Ef; by left).
    apply list_elem_of_filter in Hm as [Em Hm]. destruct Hnot.
    rewrite <- (updateNode_tempIds id changes). apply list_elem_of_fmap.
    by exists m.
Qed.

Lemma updateNode_marks_start_witness :
  length (startNodes (updateNode "import-node-1" (Derived.startChange true)
                        (fst (Derived.visioState Scenarios.scenarioPage
                                (Some Scenarios.scenarioMasters))))) = 1%nat.
Proof.
  apply (updateNode_marks_start "import-node-1" (Derived.startChange true)).
  - reflexivity.
  - apply (bool_decide_unpack _). vm_compute. exact I.
  - apply (bool_decide_unpack _). vm_compute. exact I.
Defined.

(** *** [deleteNode], [deleteEdge], [updateEdge], [add] *)

(** Deleting a node removes every node with that identifier and every edge
    with that identifier at an end, clears the selection, keeps everything
    else, and keeps the edges closed over the nodes. *)
Theorem deleteNode_removes (id : string) (ns : list Node) (es : list Edge) :
  let ns' := fst (fst (deleteNode id ns es)) in
  let es' := snd (fst (deleteNode id ns es)) in
  (id ∉ tempId <$> ns')
  ∧ (∀ e, e ∈ es' → sourceId e ≠ Some (Js.Id id) ∧ targetId e ≠ Some (Js.Id id))
  ∧ (∀ n, n ∈ ns → tempId n ≠ id → n ∈ ns')
  ∧ (∀ e, e ∈ es → sourceId e ≠ Some (Js.Id id) → targetId e ≠ Some (Js.Id id) →
          e ∈ es')
  ∧ snd (deleteNode id ns es) = None
  ∧ (closed ns es → closed ns' es').
Proof.
  simpl. split; [|split; [|split; [|split; [|split; [done|]]]]].
  - intros (n & Hid & [Hne _]%list_elem_of_filter)%list_elem_of_fmap. by destruct Hne.
  - by intros e [? _]%list_elem_of_filter.
  - intros n Hn Hne. by apply list_elem_of_filter.
  - intros e He H1 H2. by apply list_elem_of_filter.
  - rewrite !closed_alt. intros Hcl e [[H1 H2] He]%list_elem_of_filter.
    destruct (Hcl e He) as (s & t & Hs & Ht & (n1 & -> & Hn1)%list_elem_of_fmap
                            & (n2 & -> & Hn2)%list_elem_of_fmap).
    exists (tempId n1), (tempId n2). split; [done|]. split; [done|].
    split; apply list_elem_of_fmap_2, list_elem_of_filter; (split; [|done]);
      intros E; [apply H1|apply H2]; congruence.
Qed.

Lemma deleteNode_removes_witness :
  closed (fst (fst (deleteNode "import-node-1"
                      (fst (Derived.visioState Scenarios.scenarioPage None))
                      (snd (Derived.visioState Scenarios.scenarioPage None)))))
         (snd (fst (deleteNode "import-node-1"
                      (fst (Derived.visioState Scenarios.scenarioPage None))
                      (snd (Derived.visioState Scenarios.scenarioPage None))))).
Proof.
  apply (deleteNode_removes "import-node-1").
  apply visioState_closed. reflexivity.
Defined.

(** The other edits keep the edges closed over the nodes: [updateNode] (it
    never changes an identifier), [updateEdge] (it only changes labels),
    [deleteEdge], and [add] with a target chosen among the nodes the row
    offers, which moreover never joins a node to itself; with no target
    chosen [add] does nothing. *)
Theorem review_edits_keep_closed (ns : list Node) (es : list Edge) (id : string)
    (changes : Changes) (newLabel : string) (now : N) (node : Node) (tgt lbl : string) :
  closed ns es →
  closed (updateNode id changes ns) es
  ∧ closed ns (updateEdge id newLabel es)
  ∧ closed ns (deleteEdge id es)
  ∧ add now node "" lbl es = es
  ∧ (node ∈ ns → tgt ∈ tempId <$> available node ns →
       closed ns (add now node tgt lbl es) ∧ tgt ≠ tempId node).
Proof.
  intros Hcl. split; [|split; [|split; [|split; [done|]]]].
  - eapply closed_same_ids; [|exact Hcl]. symmetry. apply updateNode_tempIds.
  - apply closed_alt. intros e (e0 & -> & He0)%list_elem_of_fmap.
    destruct (proj1 (closed_alt ns es) Hcl e0 He0) as (s & t & Hs & Ht & H1 & H2).
    exists s, t. by case_bool_decide.
  - eapply closed_sub_edges; [|exact Hcl].
    by intros e [_ ?]%list_elem_of_filter.
  - intros Hnode (n & -> & [Hne Hn]%list_elem_of_filter)%list_elem_of_fmap.
    split; [|done]. unfold add. case_bool_decide; [done|].
    apply closed_alt. unfold addEdge.
    intros e [He| ->%list_elem_of_singleton]%elem_of_app.
    + by apply (proj1 (closed_alt ns es) Hcl).
    + exists (tempId node), (tempId n). simpl.
      repeat split; try done; by apply list_elem_of_fmap_2.
Qed.

Lemma review_edits_keep_closed_witness :
  closed (updateNode "import-node-0" (Derived.startChange false)
            (fst (Derived.visioState Scenarios.scenarioPage None)))
         (snd (Derived.visioState Scenarios.scenarioPage None)).
Proof.
  refine (proj1 (review_edits_keep_closed _ _ "import-node-0"
                   (Derived.startChange false) "" 0%N
                   {| tempId := "import-node-0"; title := "Begin"; type := question;
                      body := ""; position := (192%Q, 192%Q); is_start := true;
                      _masterName := "unknown"; visioId := Some (Some "1");
                      resolution := None |} "" "" _)).
  apply visioState_closed. reflexivity.
Defined.

(** *** [saveFlow] *)

Lemma saveFlow_proceeds name desc (ns : list Node) (es : list Edge) :
  Js.trim name ≠ "" → length (startNodes ns) = 1%nat →
  saveFlow name desc ns es
  = inr {| rq_name := Js.trim name; rq_description := Js.trim desc;
           rq_nodes := nodePayload <$> ns; rq_edges := edgePayload <$> es |}.
Proof.
  intros Hname Hone. unfold saveFlow.
  rewrite bool_decide_eq_false_2 by done.
  rewrite bool_decide_eq_false_2 by lia.
  by rewrite bool_decide_eq_false_2 by lia.
Qed.

Lemma saveFlow_gate_many name desc (ns : list Node) (es : list Edge) :
  Js.trim name ≠ "" → (1 < length (startNodes ns))%nat →
  saveFlow name desc ns es = inl "Only one node can be the START node.".
Proof.
  intros Hn Hm. unfold saveFlow. rewrite bool_decide_eq_false_2 by done.
  rewrite bool_decide_eq_false_2 by lia. by rewrite bool_decide_eq_true_2.
Qed.

Lemma payload_starts (ns : list Node) :
  length (filter (λ p, p_is_start p = true) (nodePayload <$> ns))
  = length (startNodes ns).
Proof.
  unfold startNodes. induction ns as [|n ns IH]; [done|]. rewrite fmap_cons.
  destruct (is_start n) eqn:E.
  - rewrite !filter_cons_True by done. simpl. by rewrite IH.
  - rewrite !filter_cons_False by (simpl; rewrite ?E; done). done.
Qed.

(** [saveFlow] sends a request exactly when the trimmed name is not empty and
    exactly one node is a start node; otherwise it reports, in this order, the
    missing name, the missing start node or the surplus of start nodes.  The
    request lists the nodes in order under their identifiers with exactly one
    start node and no empty title, and the edges with their ends. *)
Theorem saveFlow_gate (name desc : string) (ns : list Node) (es : list Edge) :
  (Js.trim name = "" → saveFlow name desc ns es = inl "Please enter a flow name.")
  ∧ (Js.trim name ≠ "" → startNodes ns = [] →
       saveFlow name desc ns es = inl "Please mark one node as the START node.")
  ∧ (Js.trim name ≠ "" → (1 < length (startNodes ns))%nat →
       saveFlow name desc ns es = inl "Only one node can be the START node.")
  ∧ (Js.trim name ≠ "" → length (startNodes ns) = 1%nat →
       ∃ rq, saveFlow name desc ns es = inr rq)
  ∧ (∀ rq, saveFlow name desc ns es = inr rq →
       Js.trim name ≠ "" ∧ length (startNodes ns) = 1%nat
       ∧ rq_name rq = Js.trim name
       ∧ p_tempId <$> rq_nodes rq = tempId <$> ns
       ∧ length (filter (λ p, p_is_start p = true) (rq_nodes rq)) = 1%nat
       ∧ (∀ p, p ∈ rq_nodes rq → p_title p ≠ "")
       ∧ (λ e, (p_sourceId e, p_targetId e)) <$> rq_edges rq
         = (λ e, (sourceId e, targetId e)) <$> es).
Proof.
  split; [|split; [|split; [|split]]].
  - intros E. unfold saveFlow. by rewrite bool_decide_eq_true_2.
  - intros Hn E. unfold saveFlow. rewrite bool_decide_eq_false_2 by done.
    by rewrite E.
  - intros Hn Hm. unfold saveFlow. rewrite bool_decide_eq_false_2 by done.
    rewrite bool_decide_eq_false_2 by lia. by rewrite bool_decide_eq_true_2.
  - intros Hn Hone. eexists. by apply saveFlow_proceeds.
  - intros rq. unfold saveFlow.
    case_bool_decide as Hn; [done|]. case_bool_decide as H0; [done|].
    case_bool_decide as H1; [done|]. intros [= <-]. simpl.
    split; [done|]. split; [lia|]. split; [done|].
    split; [by rewrite <- list_fmap_compose|].
    split; [rewrite payload_starts; lia|].
    split; [|by rewrite <- list_fmap_compose].
    intros p (n & -> & _)%list_elem_of_fmap. simpl. unfold Js.str_or.
    by case_bool_decide.
Qed.

Lemma saveFlow_gate_witness :
  saveFlow "   " "" (fst (Derived.visioState Scenarios.scenarioPage None))
           (snd (Derived.visioState Scenarios.scenarioPage None))
  = inl "Please enter a flow name.".
Proof. apply (proj1 (saveFlow_gate "   " "" _ _)). reflexivity. Defined.

Lemma startNodes_ofVisio (l : list Visio.Node) :
  length (startNodes (ofVisio <$> l)) = Visio.countStart l.
Proof.
  unfold startNodes, Visio.countStart. induction l as [|n l IH]; [done|].
  rewrite fmap_cons. destruct (Visio.is_start n) eqn:E.
  - rewrite !filter_cons_True by done. simpl. by rewrite IH.
  - rewrite !filter_cons_False by (simpl; rewrite ?E; done). done.
Qed.

Lemma startNodes_ofGenerated (l : list Generate.Node) :
  length (startNodes (ofGenerated <$> l)) = Generate.countStart l.
Proof.
  unfold startNodes, Generate.countStart. induction l as [|n l IH]; [done|].
  rewrite fmap_cons. destruct (Generate.is_start n) eqn:E.
  - rewrite !filter_cons_True by done. simpl. by rewrite IH.
  - rewrite !filter_cons_False by (simpl; rewrite ?E; done). done.
Qed.

(** What an import leaves in the state can be saved as it is, given a name:
    always so for a page whose shape identifiers are distinct, and for a
    response flagging at most one node; a response flagging several nodes is
    imported but refused by [saveFlow]. *)
Theorem import_then_save (name desc : string) :
  Js.trim name ≠ "" →
  (∀ page mastersXml g w,
     Visio.handleFile page mastersXml = Visio.Reviewable g w →
     NoDup (Visio.s_ID <$> Visio.shapes page) →
     ∃ rq, saveFlow name desc (fst (Derived.visioState page mastersXml))
                    (snd (Derived.visioState page mastersXml)) = inr rq)
  ∧ (∀ data g,
       Generate.handleGenerate data = Generate.Reviewable g →
       ((length (Generate.flaggedStart (Generate.r_nodes data)) ≤ 1)%nat →
          ∃ rq, saveFlow name desc (fst (Derived.generatedState g))
                         (snd (Derived.generatedState g)) = inr rq)
       ∧ ((1 < length (Generate.flaggedStart (Generate.r_nodes data)))%nat →
          saveFlow name desc (fst (Derived.generatedState g))
                   (snd (Derived.generatedState g))
          = inl "Only one node can be the START node.")).
Proof.
  intros Hname. split.
  - intros page mastersXml g w Hf Hnd.
    apply VisioProofs.handleFile_Reviewable in Hf as (-> & Hne & _).
    destruct (VisioProofs.visio_start_count page mastersXml Hne) as [_ Hone].
    eexists. apply saveFlow_proceeds; [done|].
    unfold Derived.visioState. simpl. rewrite startNodes_ofVisio. by apply Hone.
  - intros data g Hg. split.
    + intros Hle.
      destruct (GenerateProofs.generate_start_count data g Hg) as (_ & _ & Hone).
      eexists. apply saveFlow_proceeds; [done|].
      unfold Derived.generatedState. simpl. rewrite startNodes_ofGenerated.
      by apply Hone.
    + intros Hmany.
      pose proof Hg as (_ & Hn & _)%GenerateProofs.handleGenerate_Reviewable.
      assert (Generate.countStart (Generate.nodes g)
              = length (Generate.flaggedStart (Generate.r_nodes data))) as Hc.
      { rewrite Hn.
        pose proof (GenerateFacts.existsb_is_start_flagged (Generate.r_nodes data)) as Hex.
        rewrite bool_decide_eq_false_2 in Hex
          by (destruct (Generate.flaggedStart _); [simpl in Hmany; lia|done]).
        unfold Generate.ensureStart.
        destruct (imap Generate.normalizeNode (Generate.r_nodes data)) as [|n0 l] eqn:El.
        { simpl in Hex. done. }
        rewrite Hex. rewrite <- El.
        apply (GenerateProofs.countStart_imap_normalizeNode id). }
      apply saveFlow_gate_many; [done|].
      unfold Derived.generatedState. simpl. rewrite startNodes_ofGenerated. lia.
Qed.

Lemma import_then_save_witness :
  ∃ rq, saveFlow "Card flow" "" (fst (Derived.visioState Scenarios.scenarioPage None))
                 (snd (Derived.visioState Scenarios.scenarioPage None)) = inr rq.
Proof.
  eassert (Visio.handleFile Scenarios.scenarioPage None = Visio.Reviewable _ _) as Hf
    by (vm_compute; reflexivity).
  refine (proj1 (import_then_save "Card flow" "" _) _ _ _ _ Hf _).
  - vm_compute. discriminate.
  - apply (bool_decide_unpack _). vm_compute. exact I.
Defined.

(** Marking a present node as start makes any state with distinct
    identifiers savable, whatever flags it had, and the request then flags
    exactly that node; clearing the flag of the only start node makes
    [saveFlow] ask for a start node. *)
Theorem mark_start_then_save (name desc id : string) (changes : Changes)
    (ns : list Node) (es : list Edge) :
  Js.trim name ≠ "" →
  (c_is_start changes = Some true → NoDup (tempId <$> ns) → id ∈ tempId <$> ns →
     ∃ rq, saveFlow name desc (updateNode id changes ns) es = inr rq
           ∧ ∀ p, p ∈ rq_nodes rq → (p_is_start p = true ↔ p_tempId p = id))
  ∧ (c_is_start changes = Some false →
     (∀ n, n ∈ ns → is_start n = true → tempId n = id) →
     saveFlow name desc (updateNode id changes ns) es
     = inl "Please mark one node as the START node.").
Proof.
  intros Hname. split.
  - intros Hc Hnd Hin.
    assert (length (startNodes (updateNode id changes ns)) = 1%nat) as Hone.
    { rewrite (startNodes_by_id id) by (intros n'; by apply updateNode_start_iff).
      apply filter_id_length; by rewrite updateNode_tempIds. }
    eexists. split; [by apply saveFlow_proceeds|]. simpl.
    intros p (n & -> & Hn)%list_elem_of_fmap. simpl.
    by apply (updateNode_start_iff id changes ns).
  - intros Hc Honly.
    assert (startNodes (updateNode id changes ns) = []) as Hnone.
    { unfold startNodes, updateNode. rewrite bool_decide_eq_false_2 by (rewrite Hc; done).
      destruct (filter _ _) as [|m l] eqn:Ef; [done|]. exfalso.
      assert (m ∈ filter (λ n, is_start n = true)
                    ((λ n, if bool_decide (tempId n ≠ id) then n else merge n changes)
                       <$> ns)) as Hm by (rewrite Ef; by left).
      apply list_elem_of_filter in Hm as [Hs (n & -> & Hn)%list_elem_of_fmap].
      case_bool_decide as Hid.
      - apply Hid. by apply Honly.
      - simpl in Hs. by rewrite Hc in Hs. }
    unfold saveFlow. rewrite bool_decide_eq_false_2 by done. by rewrite Hnone.
Qed.

Lemma mark_start_then_save_witness :
  ∃ g rq, Generate.handleGenerate Scenarios.twoStarts = Generate.Reviewable g
          ∧ saveFlow "Two starts" ""
              (updateNode "import-node-1" (Derived.startChange true)
                 (fst (Derived.generatedState g)))
              (snd (Derived.generatedState g)) = inr rq.
Proof.
  eassert (Generate.handleGenerate Scenarios.twoStarts = Generate.Reviewable _) as Hg
    by (vm_compute; reflexivity).
  match type of Hg with
  | _ = Generate.Reviewable ?g =>
      destruct (proj1 (mark_start_then_save "Two starts" "" "import-node-1"
                         (Derived.startChange true)
                         (fst (Derived.generatedState g))
                         (snd (Derived.generatedState g)) ltac:(vm_compute; discriminate)))
        as (rq & Hrq & _)
  end.
  - reflexivity.
  - apply (bool_decide_unpack _). vm_compute. exact I.
  - apply (bool_decide_unpack _). vm_compute. exact I.
  - eexists _, rq. split; [exact Hg|exact Hrq].
Defined.

End ReviewProofs.

(** ** The text tab *)

Module TextToFlowProofs.
Import TextToFlow.

Lemma chars_slice0 k s c : c ∈ chars (Js.slice0 k s) → c ∈ chars s.
Proof.
  revert s. induction k as [|k IH]; intros [|a s]; simpl; try by intros ?%elem_of_nil.
  intros [->|Hc]%elem_of_cons; [by left|right; by apply IH].
Qed.

Lemma chars_firstPiece s c : c ∈ chars (firstPiece s) → isTerminator c = false.
Proof.
  induction s as [|a s IH]; simpl; [by intros ?%elem_of_nil|].
  destruct (isTerminator a) eqn:E; simpl; [by intros ?%elem_of_nil|].
  intros [->|Hc]%elem_of_cons; [done|by apply IH].
Qed.

Lemma startsWith_firstPiece s : Js.startsWith (firstPiece s) s = true.
Proof.
  induction s as [|a s IH]; [done|]. simpl.
  destruct (isTerminator a); [done|]. simpl.
  by rewrite bool_decide_eq_true_2.
Qed.

Lemma startsWith_slice0 k p s :
  Js.startsWith p s = true → Js.startsWith (Js.slice0 k p) s = true.
Proof.
  revert p s. induction k as [|k IH]; intros [|a p] [|b s]; simpl; try done.
  intros [Hab Hp]%andb_true_iff. rewrite Hab. simpl. by apply IH.
Qed.

(** For an ASCII description, the flow name proposed for a generated flow
    has at most 60 characters, contains none of [. ! ? \n], and is a prefix
    of the trimmed description; it is empty exactly when the trimmed
    description is empty or begins with one of these characters, and
    [saveFlow] then asks for a name. *)
Theorem flowName_shape (description desc : string)
    (ns : list Review.Node) (es : list Review.Edge) :
  Js.isAscii description = true →
  (String.length (flowName description) ≤ 60)%nat
  ∧ (∀ c, c ∈ chars (flowName description) → isTerminator c = false)
  ∧ Js.startsWith (flowName description) (Js.trim description) = true
  ∧ (flowName description = "" ↔
       match Js.trim description with
       | EmptyString => True
       | String c _ => isTerminator c = true
       end)
  ∧ (flowName description = "" →
       Review.saveFlow (rawName (flowName description)) desc ns es
       = inl "Please enter a flow name.").
Proof.
  intros _. unfold flowName. split; [apply GenerateFacts.slice0_length|].
  split; [intros c Hc%chars_slice0; by eapply chars_firstPiece|].
  split; [apply startsWith_slice0, startsWith_firstPiece|].
  split.
  - destruct (Js.trim description) as [|c s]; [done|]. simpl.
    destruct (isTerminator c); [done|]. simpl. split; [done|]. intros ?; done.
  - intros ->. reflexivity.
Qed.

Lemma flowName_shape_witness :
  Review.saveFlow (rawName (flowName "... then ask for the card number")) "" [] []
  = inl "Please enter a flow name.".
Proof.
  apply (flowName_shape "... then ask for the card number" "" [] [] eq_refl).
  vm_compute. reflexivity.
Defined.

End TextToFlowProofs.
